(** * blockly-local-variable: the declaration registry

    A shallow embedding of [declaration_list.ts] (class [DeclarationList]) and
    of the part of the Blockly object model it queries, with the properties of
    scope resolution, registration and category rendering proved about it. *)

From Stdlib Require Import List ZArith String Ascii Bool Arith Lia.
Import ListNotations.

Local Open Scope Z_scope.
Local Open Scope list_scope.

(** ** Results of code that may raise

    Reading a property of [null] raises a [TypeError] in JavaScript.  The
    registry dereferences [block.workspace] and the result of
    [Blockly.Workspace.getById] without a guard, so the functions that do so
    return an [outcome].  [Blockly.Xml.textToDom] raises as well, on a text
    that is not XML.  An [outcome] records that a call raised; the class of
    the exception is not tracked, and the constructor keeps the name of the
    error of a [null] read. *)

Inductive outcome (A : Type) : Type :=
| Ok (a : A)
| TypeError.

Arguments Ok {A} a.
Arguments TypeError {A}.

Definition bind {A B : Type} (m : outcome A) (k : A -> outcome B) : outcome B :=
  match m with
  | Ok a => k a
  | TypeError => TypeError
  end.

Notation "x <- m ;; k" := (bind m (fun x => k))
  (at level 61, m at next level, right associativity).

(** [deref o] reads through a reference that may be [null]. *)
Definition deref {A : Type} (o : option A) : outcome A :=
  match o with
  | Some a => Ok a
  | None => TypeError
  end.

(** [Array.prototype.map] with a callback that may raise: the elements are
    visited from left to right and the first error aborts the call. *)
Fixpoint mapM {A B : Type} (f : A -> outcome B) (l : list A) : outcome (list B) :=
  match l with
  | [] => Ok []
  | a :: l' =>
      b <- f a ;;
      bs <- mapM f l' ;;
      Ok (b :: bs)
  end.

(** JavaScript truthiness of an object-or-undefined value. *)
Definition truthy {A : Type} (o : option A) : bool :=
  match o with
  | Some _ => true
  | None => false
  end.

(** [Array.prototype.filter] with the two-argument callback [(b, i) => ...];
    [i] is the index of the first element of [l]. *)
Fixpoint filter_from {A : Type} (f : A -> Z -> bool) (i : Z) (l : list A) : list A :=
  match l with
  | [] => []
  | a :: l' =>
      if f a i then a :: filter_from f (i + 1) l' else filter_from f (i + 1) l'
  end.

Definition filteri {A : Type} (f : A -> Z -> bool) (l : list A) : list A :=
  filter_from f 0 l.

(** [===] on two values that are a string or [null]. *)
Definition strict_eq (a b : option string) : bool :=
  match a, b with
  | Some x, Some y => String.eqb x y
  | None, None => true
  | _, _ => false
  end.

(** Truthiness of a string-or-undefined value: the empty string is falsy. *)
Definition truthy_string (o : option string) : bool :=
  match o with
  | Some s => negb (String.eqb s EmptyString)
  | None => false
  end.

Module DeclarationList.

(** ** Data model *)

(** [type Declaration = { id:string; wid:string; name?:string }] *)
Record Declaration : Type := mkDeclaration {
  id : string;
  wid : string;
  name : option string
}.

(** Blocks and workspaces are JavaScript objects: they are compared by
    identity, so they are modelled by handles.  Two blocks of different
    workspaces may carry the same [id]. *)
Definition Block : Type := nat.
Definition Workspace : Type := nat.

(** The part of the Blockly object model that the registry reads.  The
    fields are independent queries: nothing is assumed about their mutual
    consistency (the parent relation may be cyclic, a block may be missing
    from its parent's children, ...). *)
Record Host : Type := mkHost {
  (** [block.id] *)
  block_id : Block -> string;
  (** [block.workspace], [null] for a block that has none *)
  workspace : Block -> option Workspace;
  (** [block.isInFlyout] *)
  isInFlyout : Block -> bool;
  (** [block.getParent()] *)
  getParent : Block -> option Block;
  (** [block.getChildren(true)] *)
  getChildren : Block -> list Block;
  (** [block.getFieldValue(name)], [null] when the field does not exist *)
  getFieldValue : Block -> string -> option string;
  (** [workspace.id] *)
  workspace_id : Workspace -> string;
  (** [workspace.getTopBlocks(true)] *)
  getTopBlocks : Workspace -> list Block;
  (** [workspace.getBlockById(id)] *)
  getBlockById : Workspace -> string -> option Block;
  (** [Blockly.Workspace.getById(id)] *)
  Workspace_getById : string -> option Workspace
}.

(** ** [addInitialListValues] *)

Definition addInitialListValues (this_list : list Declaration)
    (l : list Declaration) : list Declaration :=
  this_list ++ l.

(** ** [getAccessibleDeclarations] *)

Definition max_iter : nat := 100.

(** [blocks.indexOf(block)], counting from [i]; [-1] when absent. *)
Fixpoint indexOf_from (blocks : list Block) (block : Block) (i : Z) : Z :=
  match blocks with
  | [] => -1
  | b :: blocks' =>
      if Nat.eqb b block then i else indexOf_from blocks' block (i + 1)
  end.

Definition indexOf (blocks : list Block) (block : Block) : Z :=
  indexOf_from blocks block 0.

(** [this.list.find(value => value.id === b_id)] *)
Definition find_id (this_list : list Declaration) (b_id : string)
  : option Declaration :=
  find (fun value => String.eqb (id value) b_id) this_list.

Section Scope.

Variable h : Host.
Variable this_list : list Declaration.

(** The callback of [blocks.filter]:
    [(i<=index||index===-1) && this.list.find(value=>value.id===b.id)] *)
Definition visible (index : Z) (b : Block) (i : Z) : bool :=
  ((i <=? index) || (index =? -1)) && truthy (find_id this_list (block_id h b)).

(** The callback of [.map]: [{id:b.id, wid:b.workspace.id}] *)
Definition toDeclaration (b : Block) : outcome Declaration :=
  w <- deref (workspace h b) ;;
  Ok {| id := block_id h b; wid := workspace_id h w; name := None |}.

(** [parent ? parent.getChildren(true) : block.workspace.getTopBlocks(true)] *)
Definition siblings (block : Block) (parent : option Block) : outcome (list Block) :=
  match parent with
  | Some p => Ok (getChildren h p)
  | None =>
      w <- deref (workspace h block) ;;
      Ok (getTopBlocks h w)
  end.

(** The declarations one iteration of the loop pushes: [vars]. *)
Definition scopeVars (blocks : list Block) (block : Block) : outcome (list Declaration) :=
  let index := indexOf blocks block in
  mapM toDeclaration (filteri (visible index) blocks).

Definition scopeLevel (block : Block) (parent : option Block) : outcome (list Declaration) :=
  blocks <- siblings block parent ;;
  scopeVars blocks block.

(** The loop [for(iter=0;iter<max_iter;iter++)], by recursion on
    [fuel = max_iter - iter].  It returns the values of [iter] and [result]
    at the exit of the loop, which is either the failed test [iter<max_iter]
    or the [break]. *)
Fixpoint walk (fuel iter : nat) (block : Block) (parent : option Block)
    (result : list Declaration) : outcome (nat * list Declaration) :=
  match fuel with
  | O => Ok (iter, result)
  | S fuel' =>
      vars <- scopeLevel block parent ;;
      let result := result ++ vars in
      match parent with
      | None => Ok (iter, result)
      | Some p => walk fuel' (S iter) p (getParent h p) result
      end
  end.

Definition getAccessibleDeclarations (block : Block) : outcome (list Declaration) :=
  match getParent h block with
  | None => Ok this_list
  | Some p =>
      r <- walk max_iter 0 block (Some p) [] ;;
      if (max_iter <=? fst r)%nat then Ok this_list else Ok (snd r)
  end.

End Scope.

(** ** [declare] *)

(** [declare] takes the block as the host hands it over, [None] being
    [null].  None of its reads can raise: every dereference is behind a
    guard. *)
Definition declare (h : Host) (this_list : list Declaration) (block : option Block)
  : list Declaration :=
  match block with
  | None => this_list
  | Some b =>
      if isInFlyout h b then this_list else
      match workspace h b with
      | None => this_list
      | Some workspace =>
          let name := getFieldValue h b "name" in
          if truthy (find_id this_list (block_id h b)) then this_list else
          let samename :=
            find (fun d =>
                    match getBlockById h workspace (id d) with
                    | Some _block => strict_eq (getFieldValue h _block "name") name
                    | None => false
                    end) this_list in
          if truthy samename && false then this_list
          else this_list ++ [{| id := block_id h b;
                           wid := workspace_id h workspace;
                           name := None |}]
      end
  end.

(** ** [getCategoryXML] *)

Section Category.

(** DOM elements and [Blockly.Xml.textToDom] belong to the host.  The
    parser raises on a text that is not XML; the registry interpolates names
    and ids into the text without escaping them. *)
Variable Element : Type.
Variable textToDom : string -> outcome Element.
Variable h : Host.

Definition dquote : string := String (ascii_of_nat 34) EmptyString.

(** [`<block type="${typeName}"><field name="name">${value}</field></block>`] *)
Definition blockText (typeName value : string) : string :=
  ("<block type=" ++ dquote ++ typeName ++ dquote ++ "><field name="
   ++ dquote ++ "name" ++ dquote ++ ">" ++ value ++ "</field></block>")%string.

(** The body of the [forEach] callback, on the list built so far. *)
Definition pushEntry (typeName : string) (filter : option Block -> bool)
    (xmlList : list Element) (d : Declaration) : outcome (list Element) :=
  if String.eqb (id d) EmptyString && truthy_string (name d) then
    let n := match name d with Some n => n | None => EmptyString end in
    let blockText := blockText typeName n in
    block <- textToDom blockText ;;
    Ok (xmlList ++ [block])
  else
    w <- deref (Workspace_getById h (wid d)) ;;
    let _block := getBlockById h w (id d) in
    if filter _block then
      let blockText := blockText typeName (id d) in
      block <- textToDom blockText ;;
      Ok (xmlList ++ [block])
    else Ok xmlList.

Fixpoint forEach (typeName : string) (filter : option Block -> bool)
    (l : list Declaration) (xmlList : list Element) : outcome (list Element) :=
  match l with
  | [] => Ok xmlList
  | d :: l' =>
      xmlList' <- pushEntry typeName filter xmlList d ;;
      forEach typeName filter l' xmlList'
  end.

Definition getCategoryXML (this_list : list Declaration) (typeName : string)
    (filter : option Block -> bool) : outcome (list Element) :=
  forEach typeName filter this_list [].

(** The default value of [filter]: [(block)=>block!=null]. *)
Definition default_filter (block : option Block) : bool := truthy block.

End Category.

(** ** Vocabulary of the statements *)

(** A sibling is a declaration when the registry holds an entry with its id. *)
Definition registered (h : Host) (this_list : list Declaration) (b : Block) : bool :=
  truthy (find_id this_list (block_id h b)).

(** [ancestor h k b] is the block reached from [b] by [k] calls of
    [getParent], if the chain is that long. *)
Fixpoint ancestor (h : Host) (k : nat) (b : Block) : option Block :=
  match k with
  | O => Some b
  | S k' =>
      match getParent h b with
      | Some p => ancestor h k' p
      | None => None
      end
  end.

(** Blockly declares [Block.workspace] as a [Workspace]: every block the
    host hands out belongs to one. *)
Definition attached (h : Host) : Prop :=
  forall b, workspace h b <> None.

(** ** Concrete block trees

    Small hosts on which the statements below are instantiated.  Blocks are
    numbered; all of them live in the single workspace [0], whose id is
    ["w"]. *)

Module Scenario.

Definition plain_host (ids : Block -> string) (parent : Block -> option Block)
    (children : Block -> list Block) (tops : list Block) : Host :=
  {| block_id := ids;
     workspace := fun _ => Some O;
     isInFlyout := fun _ => false;
     getParent := parent;
     getChildren := children;
     getFieldValue := fun _ _ => None;
     workspace_id := fun _ => "w"%string;
     getTopBlocks := fun _ => tops;
     getBlockById := fun _ _ => None;
     Workspace_getById := fun i => if String.eqb i "w" then Some O else None |}.

Definition block_backed (i : string) : Declaration :=
  {| id := i; wid := "w"%string; name := None |}.

Definition primitive (n : string) : Declaration :=
  {| id := EmptyString; wid := "w"%string; name := Some n |}.

(** A statement block [P] (block 0) with the children [A; B; C; D]
    (blocks 1 to 4); [A], [B] and [D] are declarations, [C] is not. *)
Definition family_ids (b : Block) : string :=
  match b with
  | 0 => "P" | 1 => "A" | 2 => "B" | 3 => "C" | 4 => "D" | _ => "other"
  end%nat%string.

Definition family_host : Host :=
  plain_host family_ids
    (fun b => match b with 1 | 2 | 3 | 4 => Some 0 | _ => None end%nat)
    (fun b => match b with 0 => [1; 2; 3; 4] | _ => [] end%nat)
    [0%nat].

Definition family_list : list Declaration :=
  [primitive "PI"; block_backed "A"; block_backed "B"; block_backed "D"].

(** Block 1 names block 0 as its parent, but the children of block 0 are
    the declarations 2 and 3 only. *)
Definition detached_host : Host :=
  plain_host (fun b => match b with 2 => "A" | 3 => "B" | _ => "other" end%nat%string)
    (fun b => match b with 0 => None | _ => Some 0 end%nat)
    (fun b => match b with 0 => [2; 3] | _ => [] end%nat)
    [0%nat].

Definition detached_list : list Declaration :=
  [block_backed "A"; block_backed "B"].

(** A tower: block [n] is the only child of block [n + 1], up to block 150. *)
Definition tower_host : Host :=
  plain_host (fun b => if Nat.eqb b 0 then "x" else "other")%string
    (fun b => if (b <? 150)%nat then Some (S b) else None)
    (fun b => match b with O => [] | S c => [c] end)
    [150%nat].

(** A block that is its own parent. *)
Definition cyclic_host : Host :=
  plain_host (fun _ => "x"%string) (fun b => Some b) (fun b => [b]) [].

(** The end-to-end scenario.  At declaration time ([e2e_before]) the
    declaration [b1] (block 1) and the block 9 have no parent.  At query time
    ([e2e_after]) the statement block 0 holds the sequence [b1; getter], the
    getter being block 2. *)
Definition e2e_ids (b : Block) : string :=
  match b with 0 => "p" | 1 => "b1" | 2 => "g" | _ => "other" end%nat%string.

Definition e2e_before : Host :=
  plain_host e2e_ids (fun _ => None) (fun _ => []) [1; 9]%nat.

Definition e2e_after : Host :=
  plain_host e2e_ids
    (fun b => match b with 1 | 2 => Some 0 | _ => None end%nat)
    (fun b => match b with 0 => [1; 2] | _ => [] end%nat)
    [0%nat].

(** Two declaration blocks, 1 and 2, whose [name] field is ["x"] both;
    block 3 sits in a flyout and block 4 has no workspace. *)
Definition clash_host : Host :=
  {| block_id := fun b => match b with 1 => "b1" | 2 => "b2" | _ => "other" end%nat%string;
     workspace := fun b => match b with 4%nat => None | _ => Some O end;
     isInFlyout := fun b => Nat.eqb b 3;
     getParent := fun _ => None;
     getChildren := fun _ => [];
     getFieldValue := fun _ f => if String.eqb f "name" then Some "x"%string else None;
     workspace_id := fun _ => "w"%string;
     getTopBlocks := fun _ => [1; 2]%nat;
     getBlockById := fun _ i =>
       if String.eqb i "b1" then Some 1%nat
       else if String.eqb i "b2" then Some 2%nat else None;
     Workspace_getById := fun i => if String.eqb i "w" then Some O else None |}.

(** Two stand-ins for [Blockly.Xml.textToDom], the element being the text
    itself: one accepts every text; the other raises when the text holds
    more [<] than the four of the template, or an [&], as an unescaped name
    such as [a<b] makes it. *)
Definition lenient_textToDom (text : string) : outcome string := Ok text.

Fixpoint count_char (c : ascii) (text : string) : nat :=
  match text with
  | EmptyString => O
  | String a text' => ((if Ascii.eqb a c then 1 else 0) + count_char c text')%nat
  end.

Definition strict_textToDom (text : string) : outcome string :=
  if Nat.eqb (count_char "060"%char text) 4 && Nat.eqb (count_char "038"%char text) 0
  then Ok text else TypeError.

End Scenario.

(** [count_id l i] is the number of entries of the registry with id [i]. *)
Definition count_id (this_list : list Declaration) (i : string) : nat :=
  List.length (filter (fun d => String.eqb (id d) i) this_list).

(** [declare_times h b n l]: [n] calls of [declare(b)] in a row. *)
Definition declare_times (h : Host) (b : Block) (n : nat)
    (this_list : list Declaration) : list Declaration :=
  Nat.iter n (fun l => declare h l (Some b)) this_list.

(** The guards of [declare]: a block that is [null], shown in a flyout, or
    without a workspace. *)
Definition rejected (h : Host) (block : option Block) : Prop :=
  match block with
  | None => True
  | Some b => isInFlyout h b = true \/ workspace h b = None
  end.

End DeclarationList.

Import DeclarationList.

(** * The builder: the callers of the registry in [builder.ts] *)

Module Builder.

(** The fields of [DeclarationListBuilder] that the methods below read. *)
Record Config : Type := mkConfig {
  TYPE_NAME_GETTER_ : string;
  TYPE_NAME_SETTER_ : string;
  isAlwaysReadonly : bool
}.

(** A menu option is the pair [[label, value]].  The label of a block-backed
    entry is [block_.getFieldValue("name")], which is [null] when the block
    has no such field. *)
Definition MenuOption : Type := (option string * string)%type.

Section Menu.

Variable h : Host.
(** [block.getOutputShape()] *)
Variable getOutputShape : Block -> option Z.
Variable cfg : Config.

(** The body of [stack.forEach] in [stackDropdownMenuImpl_], on the options
    built so far. *)
Definition pushOption (isSetter : bool) (options : list MenuOption)
    (d : Declaration) : outcome (list MenuOption) :=
  if String.eqb (id d) EmptyString && truthy_string (name d) then
    let n := match name d with Some n => n | None => EmptyString end in
    Ok (options ++ [(Some n, n)])
  else
    w <- deref (Workspace_getById h (wid d)) ;;
    match getBlockById h w (id d) with
    | Some block_ =>
        if isAlwaysReadonly cfg || negb isSetter
           || negb (strict_eq (getFieldValue h block_ "readonly") (Some "FALSE"%string))
        then Ok (options ++ [(getFieldValue h block_ "name", id d)])
        else Ok options
    | None => Ok options
    end.

Fixpoint forEachOption (isSetter : bool) (stack : list Declaration)
    (options : list MenuOption) : outcome (list MenuOption) :=
  match stack with
  | [] => Ok options
  | d :: stack' =>
      options' <- pushOption isSetter options d ;;
      forEachOption isSetter stack' options'
  end.

(** The option generator that [stackDropdownMenuImpl_] hands to
    [Blockly.FieldDropdown]. *)
Definition stackDropdownMenuImpl_ (this_list : list Declaration) (block : Block)
  : outcome (list MenuOption) :=
  stack <- getAccessibleDeclarations h this_list block ;;
  let isSetter := truthy (getOutputShape block) in
  forEachOption isSetter stack [].

End Menu.

(** The filter of the setter templates:
    [(block)=>block&&block.getFieldValue("readonly")==='FALSE'] *)
Definition setterFilter (h : Host) (block : option Block) : bool :=
  match block with
  | Some b => strict_eq (getFieldValue h b "readonly") (Some "FALSE"%string)
  | None => false
  end.

(** What an entry that is not a primitive adds to the menu, [w] being the
    workspace its [wid] resolves to. *)
Definition offered (h : Host) (cfg : Config) (isSetter : bool)
    (w : Workspace) (d : Declaration) : list MenuOption :=
  match getBlockById h w (id d) with
  | Some block_ =>
      if isAlwaysReadonly cfg || negb isSetter
         || negb (setterFilter h (Some block_))
      then [(getFieldValue h block_ "name", id d)]
      else []
  | None => []
  end.

Section CategoryCallback.

Variable Element : Type.
Variable textToDom : string -> outcome Element.
Variable h : Host.
Variable cfg : Config.
(** Truthiness of [Blockly.Blocks[type]] *)
Variable Blocks : string -> bool.

(** [categoryCallback_]; [xmlList0] is [this.xmlList], which [slice] copies
    and the pushes leave alone. *)
Definition categoryCallback_ (xmlList0 : list Element) (this_list : list Declaration)
  : outcome (list Element) :=
  let xmlList := xmlList0 in
  if Blocks (TYPE_NAME_GETTER_ cfg) then
    getters <- getCategoryXML Element textToDom h this_list
                 (TYPE_NAME_GETTER_ cfg) default_filter ;;
    let xmlList := xmlList ++ getters in
    if negb (isAlwaysReadonly cfg) then
      setters <- getCategoryXML Element textToDom h this_list
                   (TYPE_NAME_SETTER_ cfg) (setterFilter h) ;;
      Ok (xmlList ++ setters)
    else Ok xmlList
  else Ok xmlList.

End CategoryCallback.

(** The test [id==="" && name] that tells a primitive entry from a
    block-backed one, in [getCategoryXML] and in the menu alike. *)
Definition isPrimitive (d : Declaration) : bool :=
  String.eqb (id d) EmptyString && truthy_string (name d).

(** The entries for which [getCategoryXML] builds an element: the
    primitives, and the entries whose workspace resolves and whose looked-up
    block the filter accepts. *)
Definition accepts (h : Host) (filter : option Block -> bool) (d : Declaration) : bool :=
  isPrimitive d ||
  match Workspace_getById h (wid d) with
  | Some w => filter (getBlockById h w (id d))
  | None => false
  end.

(** [clash_host] with a [readonly] field: block 1 is read-only (["TRUE"]),
    block 2 is not (["FALSE"]). *)
Definition readonly_host : Host :=
  {| block_id := block_id Scenario.clash_host;
     workspace := workspace Scenario.clash_host;
     isInFlyout := isInFlyout Scenario.clash_host;
     getParent := getParent Scenario.clash_host;
     getChildren := getChildren Scenario.clash_host;
     getFieldValue := fun b f =>
       if String.eqb f "readonly" then
         match b with
         | 1%nat => Some "TRUE"%string
         | 2%nat => Some "FALSE"%string
         | _ => None
         end
       else getFieldValue Scenario.clash_host b f;
     workspace_id := workspace_id Scenario.clash_host;
     getTopBlocks := getTopBlocks Scenario.clash_host;
     getBlockById := getBlockById Scenario.clash_host;
     Workspace_getById := Workspace_getById Scenario.clash_host |}.

(** [family_host] whose block 2 (the declaration [B]) has lost its
    workspace. *)
Definition orphan_host : Host :=
  {| block_id := block_id Scenario.family_host;
     workspace := fun b => match b with 2%nat => None | _ => Some O end;
     isInFlyout := isInFlyout Scenario.family_host;
     getParent := getParent Scenario.family_host;
     getChildren := getChildren Scenario.family_host;
     getFieldValue := getFieldValue Scenario.family_host;
     workspace_id := workspace_id Scenario.family_host;
     getTopBlocks := getTopBlocks Scenario.family_host;
     getBlockById := getBlockById Scenario.family_host;
     Workspace_getById := Workspace_getById Scenario.family_host |}.

(** [family_host] whose root block 0 has no workspace. *)
Definition rootless_host : Host :=
  {| block_id := block_id Scenario.family_host;
     workspace := fun b => match b with 0%nat => None | _ => Some O end;
     isInFlyout := isInFlyout Scenario.family_host;
     getParent := getParent Scenario.family_host;
     getChildren := getChildren Scenario.family_host;
     getFieldValue := getFieldValue Scenario.family_host;
     workspace_id := workspace_id Scenario.family_host;
     getTopBlocks := getTopBlocks Scenario.family_host;
     getBlockById := getBlockById Scenario.family_host;
     Workspace_getById := Workspace_getById Scenario.family_host |}.

(** Three levels: block 3 inside block 2 inside block 1, which is a top
    block next to the declaration 0.  Blocks 0 and 2 are declarations. *)
Definition nest_host : Host :=
  Scenario.plain_host
    (fun b => match b with 0 => "outer" | 2 => "inner" | _ => "other" end%nat%string)
    (fun b => match b with 2 => Some 1 | 3 => Some 2 | 4 => Some 2 | _ => None end%nat)
    (fun b => match b with 1 => [2] | 2 => [4; 3] | _ => [] end%nat)
    [0; 1]%nat.

(** A host whose only block, 1, has an id that is not XML text. *)
Definition markup_host : Host :=
  {| block_id := fun _ => "a<b"%string;
     workspace := fun _ => Some O;
     isInFlyout := fun _ => false;
     getParent := fun _ => None;
     getChildren := fun _ => [];
     getFieldValue := fun _ _ => None;
     workspace_id := fun _ => "w"%string;
     getTopBlocks := fun _ => [1%nat];
     getBlockById := fun _ i => if String.eqb i "a<b" then Some 1%nat else None;
     Workspace_getById := fun i => if String.eqb i "w" then Some O else None |}.

(** [family_host] with working lookups: [getBlockById] finds the blocks
    [A], [B] and [D] by id, and their [name] fields are ["a"], ["b"], ["d"]. *)
Definition menu_host : Host :=
  {| block_id := block_id Scenario.family_host;
     workspace := workspace Scenario.family_host;
     isInFlyout := isInFlyout Scenario.family_host;
     getParent := getParent Scenario.family_host;
     getChildren := getChildren Scenario.family_host;
     getFieldValue := fun b f =>
       if String.eqb f "name" then
         match b with
         | 1%nat => Some "a"%string
         | 2%nat => Some "b"%string
         | 4%nat => Some "d"%string
         | _ => None
         end
       else None;
     workspace_id := workspace_id Scenario.family_host;
     getTopBlocks := getTopBlocks Scenario.family_host;
     getBlockById := fun _ i =>
       if String.eqb i "A" then Some 1%nat
       else if String.eqb i "B" then Some 2%nat
       else if String.eqb i "D" then Some 4%nat else None;
     Workspace_getById := Workspace_getById Scenario.family_host |}.

End Builder.

(** * Properties *)

(** ** The error monad *)

Lemma bind_Ok_inv {A B : Type} (m : outcome A) (k : A -> outcome B) (b : B) :
  bind m k = Ok b -> exists a, m = Ok a /\ k a = Ok b.
Proof.
  destruct m as [a|]; simpl; intros H; [exists a; auto | discriminate].
Qed.

Lemma mapM_In {A B : Type} (f : A -> outcome B) (l : list A) (bs : list B) :
  mapM f l = Ok bs ->
  forall b, In b bs -> exists a, In a l /\ f a = Ok b.
Proof.
  revert bs. induction l as [|a l IH]; simpl; intros bs H b Hb.
  - inversion H; subst. destruct Hb.
  - apply bind_Ok_inv in H. destruct H as (b0 & Hf & H).
    apply bind_Ok_inv in H. destruct H as (bs0 & Hm & H).
    inversion H; subst. destruct Hb as [->|Hb].
    + exists a; auto.
    + destruct (IH _ Hm _ Hb) as (a' & Ha' & Hfa'). exists a'; auto.
Qed.

Lemma mapM_total {A B : Type} (f : A -> outcome B) (l : list A) :
  (forall a, In a l -> exists b, f a = Ok b) ->
  exists bs, mapM f l = Ok bs.
Proof.
  induction l as [|a l IH]; simpl; intros H.
  - eexists; reflexivity.
  - destruct (H a (or_introl eq_refl)) as (b & ->).
    destruct IH as (bs & ->); [intros; apply H; auto|].
    eexists; reflexivity.
Qed.

(** ** [indexOf] and the indexed filter *)

Lemma indexOf_from_range (blocks : list Block) (block : Block) (i : Z) :
  indexOf_from blocks block i = -1 \/
  i <= indexOf_from blocks block i < i + Z.of_nat (List.length blocks).
Proof.
  revert i. induction blocks as [|b blocks IH]; intros i; simpl; [left; reflexivity|].
  destruct (Nat.eqb b block); [right; lia|].
  destruct (IH (i + 1)) as [H|H]; [left; exact H | right; lia].
Qed.


Lemma indexOf_from_present (blocks : list Block) (block : Block) (i : Z) :
  0 <= i -> In block blocks -> 0 <= indexOf_from blocks block i.
Proof.
  revert i. induction blocks as [|b blocks IH]; intros i Hi H; simpl; [destruct H|].
  destruct (Nat.eqb_spec b block) as [->|Hne]; [exact Hi|].
  destruct H as [H|H]; [contradiction|]. apply IH; [lia | exact H].
Qed.


(** When found, [indexOf] is the position of the first occurrence. *)
Lemma indexOf_from_first (blocks : list Block) (block : Block) (i : Z) :
  indexOf_from blocks block i <> -1 -> 0 <= i ->
  nth_error blocks (Z.to_nat (indexOf_from blocks block i - i)) = Some block /\
  ~ In block (firstn (Z.to_nat (indexOf_from blocks block i - i)) blocks).
Proof.
  revert i. induction blocks as [|b blocks IH]; intros i H Hi; simpl in *; [congruence|].
  destruct (Nat.eqb_spec b block) as [->|Hne].
  - rewrite Z.sub_diag. simpl. split; [reflexivity | intros []].
  - destruct (IH (i + 1) H ltac:(lia)) as [Hn Hf].
    pose proof (indexOf_from_range blocks block (i + 1)) as [Hr|Hr]; [congruence|].
    replace (Z.to_nat (indexOf_from blocks block (i + 1) - i))
      with (S (Z.to_nat (indexOf_from blocks block (i + 1) - (i + 1)))) by lia.
    simpl. split; [exact Hn|]. intros [Hb|Hb]; [contradiction | exact (Hf Hb)].
Qed.

Section ScopeFacts.

Variable h : Host.
Variable this_list : list Declaration.


Lemma filter_from_found (index : Z) (blocks : list Block) (i : Z) :
  index <> -1 ->
  filter_from (visible h this_list index) i blocks =
  filter (registered h this_list) (firstn (Z.to_nat (index - i + 1)) blocks).
Proof.
  intros Hidx. revert i. induction blocks as [|b blocks IH]; intros i; simpl.
  - rewrite firstn_nil. reflexivity.
  - unfold visible at 1. fold (registered h this_list b).
    destruct (Z.eqb_spec index (-1)) as [?|_]; [contradiction|].
    rewrite orb_false_r.
    destruct (Z.leb_spec i index) as [Hle|Hgt].
    + replace (Z.to_nat (index - i + 1))
        with (S (Z.to_nat (index - (i + 1) + 1))) by lia.
      simpl. rewrite IH. destruct (registered h this_list b); reflexivity.
    + replace (Z.to_nat (index - i + 1)) with O by lia.
      simpl. rewrite IH.
      replace (Z.to_nat (index - (i + 1) + 1)) with O by lia. reflexivity.
Qed.

(** What one level contributes, by the two cases of [indexOf]. *)
Lemma scopeVars_found (blocks : list Block) (block : Block) :
  indexOf blocks block <> -1 ->
  scopeVars h this_list blocks block =
  mapM (toDeclaration h)
       (filter (registered h this_list) (firstn (Z.to_nat (indexOf blocks block + 1)) blocks)).
Proof.
  intros H. unfold scopeVars, filteri. rewrite filter_from_found by exact H.
  rewrite Z.sub_0_r. reflexivity.
Qed.


Lemma filter_from_In (f : Block -> Z -> bool) (blocks : list Block) (i : Z) (b : Block) :
  In b (filter_from f i blocks) -> In b blocks /\ exists j, f b j = true.
Proof.
  revert i. induction blocks as [|a blocks IH]; intros i; simpl; [intros []|].
  destruct (f a i) eqn:E.
  - intros [->|H]; [split; [left; reflexivity | exists i; exact E]|].
    destruct (IH _ H) as [H1 H2]. split; [right; exact H1 | exact H2].
  - intros H. destruct (IH _ H) as [H1 H2]. split; [right; exact H1 | exact H2].
Qed.

(** Every declaration of a level is built from a registered sibling. *)
Lemma scopeVars_In (blocks : list Block) (block : Block) (vars : list Declaration) :
  scopeVars h this_list blocks block = Ok vars ->
  forall d, In d vars ->
  exists s w, In s blocks /\ registered h this_list s = true /\ workspace h s = Some w /\
              d = {| id := block_id h s; wid := workspace_id h w; name := None |}.
Proof.
  unfold scopeVars. intros H d Hd.
  destruct (mapM_In _ _ _ H d Hd) as (s & Hs & Hts).
  apply filter_from_In in Hs. destruct Hs as (Hin & j & Hv).
  unfold visible in Hv. apply andb_true_iff in Hv. destruct Hv as [_ Hreg].
  unfold toDeclaration in Hts. destruct (workspace h s) as [w|] eqn:Ew; simpl in Hts;
    [|discriminate].
  exists s, w. inversion Hts; subst. auto.
Qed.

End ScopeFacts.

(** ** The ancestor walk *)

Section WalkFacts.

Variable h : Host.
Variable this_list : list Declaration.

(** On an attached host no level raises. *)
Lemma scopeLevel_total (block : Block) (parent : option Block) :
  attached h -> exists vars, scopeLevel h this_list block parent = Ok vars.
Proof.
  intros Hw. unfold scopeLevel.
  assert (Hs : exists blocks, siblings h block parent = Ok blocks).
  { unfold siblings. destruct parent as [p|]; [eexists; reflexivity|].
    destruct (workspace h block) as [w|] eqn:E; [eexists; reflexivity|].
    exfalso; exact (Hw _ E). }
  destruct Hs as (blocks & ->). simpl. unfold scopeVars.
  apply mapM_total. intros s _. unfold toDeclaration.
  destruct (workspace h s) as [w|] eqn:E; [eexists; reflexivity|].
  exfalso; exact (Hw _ E).
Qed.

(** [result] only grows. *)
Lemma walk_acc (fuel iter : nat) (block : Block) (parent : option Block)
    (acc : list Declaration) (i : nat) (r : list Declaration) :
  walk h this_list fuel iter block parent acc = Ok (i, r) ->
  exists rest, r = acc ++ rest.
Proof.
  revert iter block parent acc.
  induction fuel as [|fuel IH]; intros iter block parent acc H; simpl in H.
  - inversion H; subst. exists []. rewrite app_nil_r. reflexivity.
  - apply bind_Ok_inv in H. destruct H as (vars & _ & H).
    destruct parent as [p|].
    + apply IH in H. destruct H as (rest & ->).
      exists (vars ++ rest). rewrite app_assoc. reflexivity.
    + inversion H; subst. exists vars. reflexivity.
Qed.

(** [iter] counts the completed iterations and never passes the bound. *)
Lemma walk_iter_range (fuel iter : nat) (block : Block) (parent : option Block)
    (acc : list Declaration) (i : nat) (r : list Declaration) :
  walk h this_list fuel iter block parent acc = Ok (i, r) ->
  (iter <= i <= iter + fuel)%nat.
Proof.
  revert iter block parent acc.
  induction fuel as [|fuel IH]; intros iter block parent acc H; simpl in H.
  - inversion H; subst. lia.
  - apply bind_Ok_inv in H. destruct H as (vars & _ & H).
    destruct parent as [p|].
    + apply IH in H. lia.
    + inversion H; subst. lia.
Qed.

(** A chain of at least [fuel] ancestors exhausts the loop. *)
Lemma walk_exhausted (fuel iter : nat) (block : Block) (acc : list Declaration) :
  attached h ->
  ancestor h fuel block <> None ->
  exists r, walk h this_list fuel iter block (getParent h block) acc
            = Ok ((iter + fuel)%nat, r).
Proof.
  intros Hw. revert iter block acc.
  induction fuel as [|fuel IH]; intros iter block acc H; simpl.
  - exists acc. rewrite Nat.add_0_r. reflexivity.
  - simpl in H. destruct (getParent h block) as [p|] eqn:Ep; [|congruence].
    destruct (scopeLevel_total block (Some p) Hw) as (vars & ->). simpl.
    destruct (IH (S iter) p (acc ++ vars) H) as (r & ->).
    exists r. f_equal. f_equal. lia.
Qed.

(** A shorter chain leaves the loop through [break]. *)
Lemma walk_break (fuel iter : nat) (block : Block) (acc : list Declaration)
    (i : nat) (r : list Declaration) :
  ancestor h fuel block = None ->
  walk h this_list fuel iter block (getParent h block) acc = Ok (i, r) ->
  (i < iter + fuel)%nat.
Proof.
  revert iter block acc.
  induction fuel as [|fuel IH]; intros iter block acc Ha H; simpl in *.
  - discriminate.
  - apply bind_Ok_inv in H. destruct H as (vars & _ & H).
    destruct (getParent h block) as [p|].
    + apply (IH _ _ _ Ha) in H. lia.
    + inversion H; subst. lia.
Qed.

(** When the loop leaves through [break], the declarations of every level
    of the chain are a segment of the result, the first level at its front. *)
Lemma walk_level (fuel iter : nat) (block : Block) (acc : list Declaration)
    (i : nat) (r : list Declaration) (k : nat) (c : Block) :
  walk h this_list fuel iter block (getParent h block) acc = Ok (i, r) ->
  (i < iter + fuel)%nat ->
  ancestor h k block = Some c ->
  exists vars pre post,
    scopeLevel h this_list c (getParent h c) = Ok vars /\
    r = acc ++ pre ++ vars ++ post /\
    (k = O -> pre = []).
Proof.
  revert iter block acc k.
  induction fuel as [|fuel IH]; intros iter block acc k H Hi Hk; simpl in H.
  - inversion H; subst. lia.
  - apply bind_Ok_inv in H. destruct H as (vars0 & Hl & H).
    destruct k as [|k]; simpl in Hk.
    + inversion Hk; subst c.
      assert (Hr : exists rest, r = (acc ++ vars0) ++ rest).
      { destruct (getParent h block) as [p|].
        - eapply walk_acc; exact H.
        - inversion H; subst. exists []. rewrite app_nil_r. reflexivity. }
      destruct Hr as (rest & ->).
      exists vars0, [], rest. simpl. rewrite <- app_assoc. auto.
    + destruct (getParent h block) as [p|] eqn:Ep; [|discriminate].
      destruct (IH (S iter) p (acc ++ vars0) k H ltac:(lia) Hk)
        as (vars & pre & post & Hv & -> & _).
      exists vars, (vars0 ++ pre), post. split; [exact Hv|]. split.
      * rewrite <- !app_assoc. reflexivity.
      * discriminate.
Qed.

(** Conversely every declaration of the result was already in [result] or
    is pushed at some level of the chain. *)
Lemma walk_In (fuel iter : nat) (block : Block) (acc : list Declaration)
    (i : nat) (r : list Declaration) (d : Declaration) :
  walk h this_list fuel iter block (getParent h block) acc = Ok (i, r) ->
  In d r ->
  In d acc \/
  exists k c vars,
    ancestor h k block = Some c /\
    scopeLevel h this_list c (getParent h c) = Ok vars /\ In d vars.
Proof.
  revert iter block acc.
  induction fuel as [|fuel IH]; intros iter block acc H Hd; simpl in H.
  - inversion H; subst. left; exact Hd.
  - apply bind_Ok_inv in H. destruct H as (vars0 & Hl & H).
    assert (Hhere : In d (acc ++ vars0) ->
                    In d acc \/
                    exists k c vars,
                      ancestor h k block = Some c /\
                      scopeLevel h this_list c (getParent h c) = Ok vars /\
                      In d vars).
    { intros Hin. apply in_app_or in Hin. destruct Hin as [Hin|Hin]; [left; exact Hin|].
      right. exists O, block, vars0. simpl. auto. }
    destruct (getParent h block) as [p|] eqn:Ep.
    + destruct (IH _ _ _ H Hd) as [Hin|(k & c & vars & Hk & Hv & Hin)].
      * apply Hhere, Hin.
      * right. exists (S k), c, vars. simpl. rewrite Ep. auto.
    + inversion H; subst. apply Hhere, Hd.
Qed.

(** The two exits of [getAccessibleDeclarations] on a nested block. *)
Lemma nested_walk_breaks (block p : Block) (r : list Declaration) :
  getParent h block = Some p ->
  ancestor h max_iter block = None ->
  getAccessibleDeclarations h this_list block = Ok r ->
  exists i, walk h this_list max_iter 0 block (getParent h block) [] = Ok (i, r) /\
            (i < max_iter)%nat.
Proof.
  intros Hp Ha H. unfold getAccessibleDeclarations in H. rewrite Hp in H.
  apply bind_Ok_inv in H. destruct H as ([i r'] & Hw & H).
  rewrite <- Hp in Hw. pose proof (walk_break _ _ _ _ _ _ Ha Hw) as Hi.
  rewrite Nat.add_0_l in Hi. cbn [fst snd] in H.
  destruct (Nat.leb_spec max_iter i) as [Hle|_]; [lia|].
  inversion H; subst. exists i. split; [exact Hw | exact Hi].
Qed.

(** On an attached host [getAccessibleDeclarations] always returns. *)
Lemma getAccessibleDeclarations_total (block : Block) :
  attached h -> exists r, getAccessibleDeclarations h this_list block = Ok r.
Proof.
  intros Hw. unfold getAccessibleDeclarations.
  destruct (getParent h block) as [p|] eqn:Ep; [|eexists; reflexivity].
  destruct (ancestor h max_iter block) as [a|] eqn:Ea.
  - destruct (walk_exhausted max_iter 0 block [] Hw) as (r & Hr); [congruence|].
    rewrite Ep in Hr. rewrite Hr. cbn [bind fst snd Nat.add].
    rewrite Nat.leb_refl. eexists; reflexivity.
  - assert (Hex : exists x, walk h this_list max_iter 0 block (Some p) [] = Ok x).
    { clear Ea. rewrite <- Ep. generalize max_iter, O, (@nil Declaration). clear Ep p.
      intros fuel. revert block.
      induction fuel as [|fuel IH]; intros block iter acc; simpl; [eexists; reflexivity|].
      destruct (scopeLevel_total block (getParent h block) Hw) as (vars & ->). simpl.
      destruct (getParent h block) as [q|]; [apply IH | eexists; reflexivity]. }
    destruct Hex as (x & ->). cbn [bind].
    destruct (max_iter <=? fst x)%nat; eexists; reflexivity.
Qed.

End WalkFacts.

(** ** Scope resolution *)

Import Scenario.

Lemma ancestor_succ_parent (h : Host) (k : nat) (b : Block) :
  ancestor h (S k) b <> None -> exists p, getParent h b = Some p.
Proof.
  simpl. destruct (getParent h b) as [p|]; [exists p; reflexivity | congruence].
Qed.

(** The declarations pushed at a level of the chain form a segment of the
    result of a nested query that stays within the bound. *)
Lemma level_segment (h : Host) (this_list : list Declaration)
    (block : Block) (k : nat) (c : Block) (blocks : list Block)
    (r : list Declaration) :
  getParent h block <> None ->
  ancestor h max_iter block = None ->
  ancestor h k block = Some c ->
  siblings h c (getParent h c) = Ok blocks ->
  getAccessibleDeclarations h this_list block = Ok r ->
  exists vars pre post,
    scopeVars h this_list blocks c = Ok vars /\
    r = pre ++ vars ++ post /\ (k = O -> pre = []).
Proof.
  intros Hp Ha Hk Hs H.
  destruct (getParent h block) as [p|] eqn:Ep; [clear Hp | congruence].
  destruct (nested_walk_breaks h this_list block p r Ep Ha H)
    as (i & Hw & Hi).
  destruct (walk_level h this_list _ _ _ _ _ _ k c Hw Hi Hk)
    as (vars & pre & post & Hv & Hr & Hpre).
  unfold scopeLevel in Hv. rewrite Hs in Hv. simpl in Hv.
  exists vars, pre, post. auto.
Qed.

(** The result of a nested query that stays within the bound is exactly
    the declarations of the levels of the chain, one level after the other
    from the queried block up to the parentless ancestor, and nothing else. *)
Lemma walk_exact (h : Host) (this_list : list Declaration)
    (fuel iter : nat) (block : Block) (acc : list Declaration)
    (i : nat) (r : list Declaration) :
  walk h this_list fuel iter block (getParent h block) acc = Ok (i, r) ->
  (i < iter + fuel)%nat ->
  exists levels,
    r = acc ++ List.concat levels /\
    forall k,
      match ancestor h k block with
      | Some c =>
          exists vars, nth_error levels k = Some vars /\
                       scopeLevel h this_list c (getParent h c) = Ok vars
      | None => nth_error levels k = None
      end.
Proof.
  revert iter block acc.
  induction fuel as [|fuel IH]; intros iter block acc H Hi; simpl in H.
  - inversion H; subst. lia.
  - apply bind_Ok_inv in H. destruct H as (vars0 & Hl & H).
    destruct (getParent h block) as [p|] eqn:Ep.
    + destruct (IH (S iter) p (acc ++ vars0) H ltac:(lia)) as (levels & Hr & Hlv).
      exists (vars0 :: levels). split.
      * rewrite Hr. simpl. rewrite <- app_assoc. reflexivity.
      * intros [|k]; simpl.
        -- exists vars0. rewrite Ep. auto.
        -- rewrite Ep. apply Hlv.
    + inversion H; subst. exists [vars0]. split.
      * simpl. rewrite app_nil_r. reflexivity.
      * intros [|k]; simpl.
        -- exists vars0. rewrite Ep. auto.
        -- rewrite Ep. destruct k; reflexivity.
Qed.

(** C1. For a block with a parent, each level of the walk keeps the
    siblings at or before the index of the block the walk stands on (the
    first [index + 1] of them) that are registered declarations, in sibling
    order, and no sibling after that index.  The result of a query that
    stays within the bound is exactly the concatenation of what the levels
    keep, from the queried block's level upwards: nothing else is returned.
    With the children [A(decl), B(decl), C, D(decl)] the query from [D]
    yields [A, B, D] and the query from [C] yields [A, B] at that level. *)
Theorem getAccessibleDeclarations_sibling_prefix
    (h : Host) (this_list : list Declaration) (blocks : list Block) (c : Block) :
  0 <= indexOf blocks c ->
  nth_error blocks (Z.to_nat (indexOf blocks c)) = Some c /\
  scopeVars h this_list blocks c =
    mapM (toDeclaration h)
         (filter (registered h this_list)
                 (firstn (Z.to_nat (indexOf blocks c + 1)) blocks)) /\
  forall block k r,
    getParent h block <> None ->
    ancestor h max_iter block = None ->
    ancestor h k block = Some c ->
    siblings h c (getParent h c) = Ok blocks ->
    getAccessibleDeclarations h this_list block = Ok r ->
    exists vars levels,
      scopeVars h this_list blocks c = Ok vars /\
      nth_error levels k = Some vars /\
      r = List.concat levels /\
      forall k',
        match ancestor h k' block with
        | Some c' =>
            exists vars', nth_error levels k' = Some vars' /\
                          scopeLevel h this_list c' (getParent h c') = Ok vars'
        | None => nth_error levels k' = None
        end.
Proof.
  intros Hidx. split; [|split].
  - unfold indexOf in *.
    destruct (indexOf_from_first blocks c 0) as [Hn _]; [lia | lia |].
    rewrite Z.sub_0_r in Hn. exact Hn.
  - apply scopeVars_found. lia.
  - intros block k r Hp Ha Hk Hs H.
    destruct (getParent h block) as [p|] eqn:Ep; [clear Hp | congruence].
    destruct (nested_walk_breaks h this_list block p r Ep Ha H) as (i & Hw & Hi).
    destruct (walk_exact h this_list _ _ _ _ _ _ Hw Hi) as (levels & Hr & Hlv).
    pose proof (Hlv k) as Hlk. rewrite Hk in Hlk. destruct Hlk as (vars & Hnth & Hv).
    unfold scopeLevel in Hv. rewrite Hs in Hv. cbn [bind] in Hv.
    exists vars, levels. split; [exact Hv|]. split; [exact Hnth|].
    split; [exact Hr | exact Hlv].
Qed.

(** The scenario of the claim: the children of [P] are [A; B; C; D], and
    the queries are made from [C] and from [D]. *)
Lemma getAccessibleDeclarations_sibling_prefix_witness :
  (0 <= indexOf [1; 2; 3; 4]%nat 3%nat /\
   getAccessibleDeclarations family_host family_list 3%nat
   = Ok [block_backed "A"; block_backed "B"] /\
   scopeVars family_host family_list [1; 2; 3; 4]%nat 3%nat
   = Ok [block_backed "A"; block_backed "B"] /\
   exists vars levels,
     scopeVars family_host family_list [1; 2; 3; 4]%nat 3%nat = Ok vars /\
     nth_error levels O = Some vars /\
     [block_backed "A"; block_backed "B"] = List.concat levels /\
     forall k',
       match ancestor family_host k' 3%nat with
       | Some c' =>
           exists vars', nth_error levels k' = Some vars' /\
                         scopeLevel family_host family_list c'
                           (getParent family_host c') = Ok vars'
       | None => nth_error levels k' = None
       end) /\
  (0 <= indexOf [1; 2; 3; 4]%nat 4%nat /\
   getAccessibleDeclarations family_host family_list 4%nat
   = Ok [block_backed "A"; block_backed "B"; block_backed "D"] /\
   scopeVars family_host family_list [1; 2; 3; 4]%nat 4%nat
   = Ok [block_backed "A"; block_backed "B"; block_backed "D"]).
Proof.
  assert (HC : 0 <= indexOf [1; 2; 3; 4]%nat 3%nat) by (vm_compute; discriminate).
  assert (HD : 0 <= indexOf [1; 2; 3; 4]%nat 4%nat) by (vm_compute; discriminate).
  destruct (getAccessibleDeclarations_sibling_prefix
              family_host family_list [1; 2; 3; 4]%nat 3%nat HC)
    as (_ & HvC & HresC).
  destruct (getAccessibleDeclarations_sibling_prefix
              family_host family_list [1; 2; 3; 4]%nat 4%nat HD)
    as (_ & HvD & _).
  split.
  - split; [exact HC|]. split; [reflexivity|]. split.
    + rewrite HvC. reflexivity.
    + apply (HresC 3%nat O); [discriminate | reflexivity..].
  - split; [exact HD|]. split; [reflexivity|]. rewrite HvD. reflexivity.
Defined.

(** The scenario of C1, evaluated. *)
Example sibling_ordering_from_D :
  getAccessibleDeclarations family_host family_list 4%nat
  = Ok [block_backed "A"; block_backed "B"; block_backed "D"].
Proof. reflexivity. Qed.

Example sibling_ordering_from_C :
  getAccessibleDeclarations family_host family_list 3%nat
  = Ok [block_backed "A"; block_backed "B"].
Proof. reflexivity. Qed.

(** C2. For a block without a parent the result is the registry itself:
    all of it, in its order, whatever the host's trees look like. *)
Theorem getAccessibleDeclarations_top_level
    (h : Host) (this_list : list Declaration) (block : Block) :
  getParent h block = None ->
  getAccessibleDeclarations h this_list block = Ok this_list.
Proof.
  intros H. unfold getAccessibleDeclarations. rewrite H. reflexivity.
Qed.

Lemma getAccessibleDeclarations_top_level_witness :
  getParent family_host 0%nat = None /\
  getAccessibleDeclarations family_host family_list 0%nat = Ok family_list.
Proof.
  split; [reflexivity|].
  apply (getAccessibleDeclarations_top_level family_host family_list 0%nat).
  reflexivity.
Defined.

(** C3. The loop runs at most [max_iter = 100] times.  When the queried
    block has 100 ancestors or more (a deeper chain, or a cyclic one), the
    walk on a host whose blocks all have a workspace ends without raising and
    the result is the whole registry. *)
Theorem getAccessibleDeclarations_depth_bound
    (h : Host) (this_list : list Declaration) (block : Block) :
  attached h ->
  ancestor h max_iter block <> None ->
  max_iter = 100%nat /\
  (forall fuel iter b parent acc i r,
      walk h this_list fuel iter b parent acc = Ok (i, r) ->
      (i <= iter + fuel)%nat) /\
  getAccessibleDeclarations h this_list block = Ok this_list.
Proof.
  intros Hw Ha. split; [reflexivity|]. split.
  - intros fuel iter b parent acc i r H.
    apply walk_iter_range in H. lia.
  - destruct (ancestor_succ_parent h 99 block Ha) as (p & Ep).
    destruct (walk_exhausted h this_list max_iter 0 block [] Hw Ha) as (r & Hr).
    unfold getAccessibleDeclarations. rewrite Ep. rewrite Ep in Hr. rewrite Hr.
    cbn [bind fst snd Nat.add]. rewrite Nat.leb_refl. reflexivity.
Qed.

Lemma tower_attached : attached tower_host.
Proof. intros b. discriminate. Qed.

Lemma getAccessibleDeclarations_depth_bound_witness :
  max_iter = 100%nat /\
  (forall fuel iter b parent acc i r,
      walk tower_host [block_backed "x"] fuel iter b parent acc = Ok (i, r) ->
      (i <= iter + fuel)%nat) /\
  getAccessibleDeclarations tower_host [block_backed "x"] 0%nat
  = Ok [block_backed "x"].
Proof.
  apply (getAccessibleDeclarations_depth_bound tower_host [block_backed "x"] 0%nat).
  - exact tower_attached.
  - vm_compute. discriminate.
Defined.

(** A chain of 99 ancestors (from block 51) is still resolved level by
    level; with 100 ancestors (from block 50) and on a cycle the query falls
    back to the registry. *)
Example tower_just_below_bound :
  getAccessibleDeclarations tower_host [primitive "PI"; block_backed "x"] 51%nat
  = Ok [].
Proof. vm_compute. reflexivity. Qed.

Example tower_at_bound :
  getAccessibleDeclarations tower_host [primitive "PI"; block_backed "x"] 50%nat
  = Ok [primitive "PI"; block_backed "x"].
Proof. vm_compute. reflexivity. Qed.

Example cycle_falls_back :
  getAccessibleDeclarations cyclic_host [primitive "PI"; block_backed "x"] 0%nat
  = Ok [primitive "PI"; block_backed "x"].
Proof. vm_compute. reflexivity. Qed.



(** The scenario of C5, evaluated: block 1 is missing from the children of
    its parent, and both declarations of that level are returned. *)
Example not_found_includes_all :
  getAccessibleDeclarations detached_host detached_list 1%nat
  = Ok [block_backed "A"; block_backed "B"].
Proof. reflexivity. Qed.

(** C10. A nested query that stays within the bound returns block-backed
    records only: each has the nonempty id of a registered block found in the
    sibling list of some level of the walk, and no [name]; so no primitive
    entry (empty id) is ever part of such a result.  Block ids are never
    empty in Blockly, the empty id being reserved for primitives. *)
Theorem getAccessibleDeclarations_nested_block_backed
    (h : Host) (this_list : list Declaration) (block : Block)
    (r : list Declaration) :
  (forall b, block_id h b <> EmptyString) ->
  getParent h block <> None ->
  ancestor h max_iter block = None ->
  getAccessibleDeclarations h this_list block = Ok r ->
  forall d, In d r ->
    id d <> EmptyString /\
    name d = None /\
    exists k c blocks s,
      ancestor h k block = Some c /\
      siblings h c (getParent h c) = Ok blocks /\
      In s blocks /\
      registered h this_list s = true /\
      block_id h s = id d.
Proof.
  intros Hid Hp Ha H d Hd.
  destruct (getParent h block) as [p|] eqn:Ep; [clear Hp | congruence].
  destruct (nested_walk_breaks h this_list block p r Ep Ha H)
    as (i & Hw & _).
  destruct (walk_In h this_list _ _ _ _ _ _ d Hw Hd)
    as [[]|(k & c & vars & Hk & Hv & Hin)].
  unfold scopeLevel in Hv. apply bind_Ok_inv in Hv.
  destruct Hv as (blocks & Hs & Hv).
  destruct (scopeVars_In h this_list blocks c vars Hv d Hin)
    as (s & w & Hsin & Hreg & _ & ->).
  simpl. split; [apply Hid|]. split; [reflexivity|].
  exists k, c, blocks, s. auto.
Qed.

Lemma getAccessibleDeclarations_nested_block_backed_witness :
  id (block_backed "B") <> EmptyString /\
  name (block_backed "B") = None /\
  exists k c blocks s,
    ancestor family_host k 4%nat = Some c /\
    siblings family_host c (getParent family_host c) = Ok blocks /\
    In s blocks /\
    registered family_host family_list s = true /\
    block_id family_host s = id (block_backed "B").
Proof.
  apply (getAccessibleDeclarations_nested_block_backed
           family_host family_list 4%nat
           [block_backed "A"; block_backed "B"; block_backed "D"]).
  - intros b. do 5 (destruct b as [|b]; [discriminate|]). discriminate.
  - discriminate.
  - reflexivity.
  - reflexivity.
  - right; left; reflexivity.
Defined.

(** ** Registration *)

Lemma find_id_app (l1 l2 : list Declaration) (i : string) :
  find_id (l1 ++ l2) i =
  match find_id l1 i with
  | Some d => Some d
  | None => find_id l2 i
  end.
Proof.
  unfold find_id. induction l1 as [|d l1 IH]; simpl; [reflexivity|].
  destruct (String.eqb (id d) i); [reflexivity | exact IH].
Qed.

Lemma count_id_app (l1 l2 : list Declaration) (i : string) :
  count_id (l1 ++ l2) i = (count_id l1 i + count_id l2 i)%nat.
Proof.
  unfold count_id. rewrite filter_app, length_app. reflexivity.
Qed.

Lemma find_id_None_count (l : list Declaration) (i : string) :
  find_id l i = None -> count_id l i = O.
Proof.
  unfold find_id, count_id. induction l as [|d l IH]; simpl; [reflexivity|].
  destruct (String.eqb (id d) i); [discriminate | exact IH].
Qed.

Lemma find_id_Some_count (l : list Declaration) (i : string) (d : Declaration) :
  find_id l i = Some d -> (1 <= count_id l i)%nat.
Proof.
  unfold find_id, count_id. induction l as [|e l IH]; simpl; [discriminate|].
  destruct (String.eqb (id e) i); simpl; [lia | exact IH].
Qed.

(** The two outcomes of [declare] on a block that passes the guards: the
    registry as it was when the id is known, one more entry otherwise.  The
    search for an entry of the same display name has no part in it. *)
Lemma declare_accepted (h : Host) (this_list : list Declaration) (b : Block)
    (w : Workspace) :
  isInFlyout h b = false ->
  workspace h b = Some w ->
  declare h this_list (Some b) =
  if truthy (find_id this_list (block_id h b)) then this_list
  else this_list ++ [{| id := block_id h b; wid := workspace_id h w; name := None |}].
Proof.
  intros Hf Hw. unfold declare. rewrite Hf, Hw.
  destruct (truthy (find_id this_list (block_id h b))); [reflexivity|].
  rewrite andb_false_r. reflexivity.
Qed.

(** Once a block passed the guards, its id is registered. *)
Lemma declare_registers (h : Host) (this_list : list Declaration) (b : Block) :
  isInFlyout h b = false ->
  workspace h b <> None ->
  truthy (find_id (declare h this_list (Some b)) (block_id h b)) = true.
Proof.
  intros Hf Hw. destruct (workspace h b) as [w|] eqn:Ew; [|congruence].
  rewrite (declare_accepted h this_list b w Hf Ew).
  destruct (find_id this_list (block_id h b)) as [d|] eqn:E; simpl.
  - rewrite E. reflexivity.
  - rewrite find_id_app, E. unfold find_id. simpl. rewrite String.eqb_refl. reflexivity.
Qed.

(** [declare] returns the registry as it is when the id is known. *)
Lemma declare_known (h : Host) (this_list : list Declaration) (b : Block) :
  truthy (find_id this_list (block_id h b)) = true ->
  declare h this_list (Some b) = this_list.
Proof.
  intros H. unfold declare.
  destruct (isInFlyout h b); [reflexivity|].
  destruct (workspace h b); [|reflexivity].
  rewrite H. reflexivity.
Qed.

(** A second call returns the registry as it is; this needs no assumption
    on the registry or on the block. *)
Lemma declare_again (h : Host) (this_list : list Declaration) (b : Block) :
  declare h (declare h this_list (Some b)) (Some b) = declare h this_list (Some b).
Proof.
  destruct (isInFlyout h b) eqn:Ef.
  { unfold declare. rewrite Ef. reflexivity. }
  destruct (workspace h b) as [w|] eqn:Ew.
  2:{ unfold declare. rewrite Ef, Ew. reflexivity. }
  apply declare_known, declare_registers; [exact Ef | congruence].
Qed.

Lemma declare_times_once (h : Host) (b : Block) (n : nat)
    (this_list : list Declaration) :
  declare_times h b (S n) this_list = declare h this_list (Some b).
Proof.
  induction n as [|n IH]; [reflexivity|].
  change (declare_times h b (S (S n)) this_list)
    with (declare h (declare_times h b (S n) this_list) (Some b)).
  rewrite IH. apply declare_again.
Qed.

Lemma count_id_declare (h : Host) (this_list : list Declaration) (b : Block) :
  isInFlyout h b = false ->
  workspace h b <> None ->
  count_id (declare h this_list (Some b)) (block_id h b)
  = Nat.max 1 (count_id this_list (block_id h b)).
Proof.
  intros Hf Hw. destruct (workspace h b) as [w|] eqn:Ew; [|congruence].
  rewrite (declare_accepted h this_list b w Hf Ew).
  destruct (find_id this_list (block_id h b)) as [d|] eqn:E; cbn [truthy].
  - apply find_id_Some_count in E. rewrite Nat.max_r by exact E. reflexivity.
  - rewrite count_id_app, (find_id_None_count _ _ E).
    unfold count_id. simpl. rewrite String.eqb_refl. reflexivity.
Qed.

(** C4, as the code has it. For every registry and every block that
    passes the guards, the calls of [declare] after the first change
    nothing, also when they are made for another block of the same id, and
    the number of entries with the block's id becomes the larger of one and
    what it was.  So exactly one such entry is left when the registry held
    at most one before; a registry that held more keeps them all. *)
Theorem declare_idempotent
    (h : Host) (this_list : list Declaration) (b : Block) (n : nat) :
  isInFlyout h b = false ->
  workspace h b <> None ->
  declare_times h b (S n) this_list = declare h this_list (Some b) /\
  (forall b', block_id h b' = block_id h b ->
              declare h (declare h this_list (Some b)) (Some b')
              = declare h this_list (Some b)) /\
  count_id (declare_times h b (S n) this_list) (block_id h b)
  = Nat.max 1 (count_id this_list (block_id h b)) /\
  ((count_id this_list (block_id h b) <= 1)%nat ->
   count_id (declare_times h b (S n) this_list) (block_id h b) = 1%nat).
Proof.
  intros Hf Hw. rewrite declare_times_once.
  split; [reflexivity|]. split; [|split].
  - intros b' Hid. apply declare_known. rewrite Hid.
    apply declare_registers; assumption.
  - apply count_id_declare; assumption.
  - intros Hc. rewrite (count_id_declare h this_list b Hf Hw). lia.
Qed.

Lemma declare_idempotent_witness :
  (declare_times clash_host 1%nat 3 [primitive "PI"]
   = declare clash_host [primitive "PI"] (Some 1%nat) /\
   (forall b', block_id clash_host b' = "b1"%string ->
               declare clash_host (declare clash_host [primitive "PI"] (Some 1%nat))
                       (Some b')
               = declare clash_host [primitive "PI"] (Some 1%nat)) /\
   count_id (declare_times clash_host 1%nat 3 [primitive "PI"]) "b1"
   = Nat.max 1 (count_id [primitive "PI"] "b1") /\
   ((count_id [primitive "PI"] "b1" <= 1)%nat ->
    count_id (declare_times clash_host 1%nat 3 [primitive "PI"]) "b1" = 1%nat)) /\
  declare_times clash_host 1%nat 3 [block_backed "b1"; block_backed "b1"]
  = declare clash_host [block_backed "b1"; block_backed "b1"] (Some 1%nat).
Proof.
  split.
  - apply (declare_idempotent clash_host [primitive "PI"] 1%nat 2%nat).
    + reflexivity.
    + discriminate.
  - assert (Hw : workspace clash_host 1%nat <> None) by discriminate.
    destruct (declare_idempotent clash_host
                [block_backed "b1"; block_backed "b1"] 1%nat 2%nat eq_refl Hw)
      as (Honce & _).
    exact Honce.
Defined.

(** C4 as stated fails: a registry seeded with two entries of the block's
    id keeps both, however often the block is declared. *)
Lemma duplicate_seed_counterexample :
  let seeded := addInitialListValues [] [block_backed "b1"; block_backed "b1"] in
  isInFlyout clash_host 1%nat = false /\
  workspace clash_host 1%nat = Some O /\
  block_id clash_host 1%nat = "b1"%string /\
  count_id (declare clash_host (declare clash_host seeded (Some 1%nat)) (Some 1%nat))
           "b1" = 2%nat.
Proof. vm_compute. repeat split. Qed.

(** C7. [declare] on [null], on a block of a flyout, or on a block
    without a workspace returns the registry unchanged.  [declare] is a total
    function of the registry: none of its reads is a dereference that could
    raise, each being behind its guard. *)
Theorem declare_rejected_noop
    (h : Host) (this_list : list Declaration) (block : option Block) :
  rejected h block ->
  declare h this_list block = this_list.
Proof.
  unfold rejected, declare. destruct block as [b|]; [|reflexivity].
  intros [Hf|Hw].
  - rewrite Hf. reflexivity.
  - rewrite Hw. destruct (isInFlyout h b); reflexivity.
Qed.

Lemma declare_rejected_noop_witness :
  (rejected clash_host None /\ declare clash_host family_list None = family_list) /\
  (rejected clash_host (Some 3%nat) /\
   declare clash_host family_list (Some 3%nat) = family_list) /\
  (rejected clash_host (Some 4%nat) /\
   declare clash_host family_list (Some 4%nat) = family_list).
Proof.
  split; [|split].
  - split; [exact I|].
    apply (declare_rejected_noop clash_host family_list None). exact I.
  - split; [left; reflexivity|].
    apply (declare_rejected_noop clash_host family_list (Some 3%nat)).
    left; reflexivity.
  - split; [right; reflexivity|].
    apply (declare_rejected_noop clash_host family_list (Some 4%nat)).
    right; reflexivity.
Defined.

(** C8. The search for an entry with the same display name never changes
    the outcome: a block that passes the guards and whose id is not registered
    is appended as [{id, wid}], also when the registry already holds a
    declaration of the same workspace with the same name. *)
Theorem declare_ignores_same_name
    (h : Host) (this_list : list Declaration) (b : Block) (w : Workspace) :
  isInFlyout h b = false ->
  workspace h b = Some w ->
  find_id this_list (block_id h b) = None ->
  declare h this_list (Some b)
  = this_list ++ [{| id := block_id h b; wid := workspace_id h w; name := None |}].
Proof.
  intros Hf Hw Hn. rewrite (declare_accepted h this_list b w Hf Hw), Hn.
  reflexivity.
Qed.

(** In [clash_host] the declared block 2 has the name of the registered
    block 1. *)
Lemma declare_ignores_same_name_witness :
  (exists d _block,
      In d [block_backed "b1"] /\
      getBlockById clash_host O (id d) = Some _block /\ _block <> 2%nat /\
      getFieldValue clash_host _block "name" = getFieldValue clash_host 2%nat "name") /\
  declare clash_host [block_backed "b1"] (Some 2%nat)
  = [block_backed "b1"; block_backed "b2"].
Proof.
  split.
  - exists (block_backed "b1"), 1%nat. repeat split; [left; reflexivity | discriminate].
  - apply (declare_ignores_same_name clash_host [block_backed "b1"] 2%nat O);
      reflexivity.
Defined.

(** ** Category rendering *)

Section CategoryFacts.

Variable Element : Type.
Variable textToDom : string -> outcome Element.
Variable h : Host.
Variable typeName : string.
Variable filter : option Block -> bool.

Local Abbreviation pushEntry := (pushEntry Element textToDom h typeName filter).
Local Abbreviation forEach := (forEach Element textToDom h typeName filter).

(** An entry pushes at the end of the list and reads nothing of it. *)
Lemma pushEntry_acc (xmlList : list Element) (d : Declaration) :
  pushEntry xmlList d = (o <- pushEntry [] d ;; Ok (xmlList ++ o)).
Proof.
  unfold DeclarationList.pushEntry.
  destruct (String.eqb (id d) EmptyString && truthy_string (name d)); cbv zeta.
  - destruct (textToDom _); reflexivity.
  - destruct (Workspace_getById h (wid d)) as [w|]; simpl; [|reflexivity].
    destruct (filter (getBlockById h w (id d))); simpl.
    + destruct (textToDom _); reflexivity.
    + rewrite app_nil_r. reflexivity.
Qed.

Lemma forEach_acc (l : list Declaration) (xmlList : list Element) :
  forEach l xmlList = (o <- forEach l [] ;; Ok (xmlList ++ o)).
Proof.
  revert xmlList. induction l as [|d l IH]; intros xmlList; simpl.
  - rewrite app_nil_r. reflexivity.
  - rewrite pushEntry_acc. destruct (pushEntry [] d) as [o|]; simpl; [|reflexivity].
    rewrite IH. rewrite (IH o).
    destruct (forEach l []) as [o'|]; simpl; [|reflexivity].
    rewrite app_assoc. reflexivity.
Qed.

Lemma forEach_app (l1 l2 : list Declaration) (xmlList : list Element) :
  forEach (l1 ++ l2) xmlList = (o <- forEach l1 xmlList ;; forEach l2 o).
Proof.
  revert xmlList. induction l1 as [|d l1 IH]; intros xmlList; simpl; [reflexivity|].
  destruct (pushEntry xmlList d) as [o|]; simpl; [apply IH | reflexivity].
Qed.

(** The output for a registry is the output for its front followed by the
    output for its back: registry order is the order of the elements. *)
Lemma getCategoryXML_app (l1 l2 : list Declaration) :
  getCategoryXML Element textToDom h (l1 ++ l2) typeName filter =
  (o1 <- getCategoryXML Element textToDom h l1 typeName filter ;;
   o2 <- getCategoryXML Element textToDom h l2 typeName filter ;;
   Ok (o1 ++ o2)).
Proof.
  unfold getCategoryXML. rewrite forEach_app.
  destruct (forEach l1 []) as [o1|]; simpl; [|reflexivity].
  apply forEach_acc.
Qed.

(** A primitive entry alone renders its name, whatever the filter. *)
Lemma getCategoryXML_primitive (p : Declaration) (n : string) :
  id p = EmptyString -> name p = Some n -> n <> EmptyString ->
  getCategoryXML Element textToDom h [p] typeName filter
  = (block <- textToDom (blockText typeName n) ;; Ok [block]).
Proof.
  intros Hid Hname Hn. unfold getCategoryXML. simpl.
  unfold DeclarationList.pushEntry. rewrite Hid, Hname. simpl.
  destruct (String.eqb_spec n EmptyString) as [?|_]; [contradiction|].
  simpl. destruct (textToDom (blockText typeName n)); reflexivity.
Qed.

End CategoryFacts.

(** The text that is handed to [textToDom] for a value, written out. *)
Lemma blockText_template (typeName value : string) :
  blockText typeName value =
  ("<block type=" ++ String "034" typeName ++ String "034" "><field name="
   ++ String "034" "name" ++ String "034" ">" ++ value
   ++ "</field></block>")%string.
Proof.
  unfold blockText, dquote. change (ascii_of_nat 34) with "034"%char.
  cbn [String.append]. reflexivity.
Qed.

(** C9, as the code has it. Let a primitive entry (empty id and a name,
    the empty name counting as none) stand in the registry between [l1] and
    [l2].  Whenever [getCategoryXML] returns, its output is the output for
    [l1], then the one element that [textToDom] builds from the text
    [<block type="TYPE"><field name="name">NAME</field></block>] with the
    stored name, then the output for [l2]: registry order is kept and the
    filter has no say on the entry.  The call returns exactly when the calls
    for [l1] and [l2] return and [textToDom] accepts that text; it raises
    otherwise, and then nothing is rendered. *)
Theorem getCategoryXML_primitive_passthrough
    (Element : Type) (textToDom : string -> outcome Element) (h : Host)
    (l1 l2 : list Declaration) (p : Declaration) (n : string)
    (typeName : string) (filter : option Block -> bool) :
  id p = EmptyString -> name p = Some n -> n <> EmptyString ->
  let text :=
    ("<block type=" ++ String "034" typeName ++ String "034" "><field name="
     ++ String "034" "name" ++ String "034" ">" ++ n
     ++ "</field></block>")%string in
  (forall out,
      getCategoryXML Element textToDom h (l1 ++ p :: l2) typeName filter = Ok out ->
      exists o1 e o2,
        getCategoryXML Element textToDom h l1 typeName filter = Ok o1 /\
        textToDom text = Ok e /\
        getCategoryXML Element textToDom h l2 typeName filter = Ok o2 /\
        out = o1 ++ e :: o2) /\
  (forall o1 e o2,
      getCategoryXML Element textToDom h l1 typeName filter = Ok o1 ->
      textToDom text = Ok e ->
      getCategoryXML Element textToDom h l2 typeName filter = Ok o2 ->
      getCategoryXML Element textToDom h (l1 ++ p :: l2) typeName filter
      = Ok (o1 ++ e :: o2)) /\
  (forall la lb,
      getCategoryXML Element textToDom h (la ++ lb) typeName filter =
      (oa <- getCategoryXML Element textToDom h la typeName filter ;;
       ob <- getCategoryXML Element textToDom h lb typeName filter ;;
       Ok (oa ++ ob))).
Proof.
  intros Hid Hname Hn text.
  assert (Heq : getCategoryXML Element textToDom h (l1 ++ p :: l2) typeName filter =
                (o1 <- getCategoryXML Element textToDom h l1 typeName filter ;;
                 e <- textToDom text ;;
                 o2 <- getCategoryXML Element textToDom h l2 typeName filter ;;
                 Ok (o1 ++ e :: o2))).
  { rewrite getCategoryXML_app.
    change (p :: l2) with ([p] ++ l2). rewrite getCategoryXML_app.
    rewrite (getCategoryXML_primitive Element textToDom h typeName filter p n Hid Hname Hn).
    rewrite blockText_template. fold text.
    destruct (getCategoryXML Element textToDom h l1 typeName filter); simpl; [|reflexivity].
    destruct (textToDom text); simpl; [|reflexivity].
    destruct (getCategoryXML Element textToDom h l2 typeName filter); reflexivity. }
  split; [|split].
  - intros out H. rewrite Heq in H.
    apply bind_Ok_inv in H. destruct H as (o1 & H1 & H).
    apply bind_Ok_inv in H. destruct H as (e & He & H).
    apply bind_Ok_inv in H. destruct H as (o2 & H2 & H).
    inversion H; subst. exists o1, e, o2. auto.
  - intros o1 e o2 H1 He H2. rewrite Heq, H1, He, H2. reflexivity.
  - intros la lb. apply getCategoryXML_app.
Qed.

Lemma getCategoryXML_primitive_passthrough_witness :
  let text :=
    ("<block type=" ++ String "034" "get" ++ String "034" "><field name="
     ++ String "034" "name" ++ String "034" ">" ++ "PI"
     ++ "</field></block>")%string in
  (forall out,
      getCategoryXML string strict_textToDom clash_host
        ([block_backed "b1"] ++ primitive "PI" :: [block_backed "b2"])
        "get" (fun _ => false) = Ok out ->
      exists o1 e o2,
        getCategoryXML string strict_textToDom clash_host [block_backed "b1"]
          "get" (fun _ => false) = Ok o1 /\
        strict_textToDom text = Ok e /\
        getCategoryXML string strict_textToDom clash_host [block_backed "b2"]
          "get" (fun _ => false) = Ok o2 /\
        out = o1 ++ e :: o2) /\
  (forall o1 e o2,
      getCategoryXML string strict_textToDom clash_host [block_backed "b1"]
        "get" (fun _ => false) = Ok o1 ->
      strict_textToDom text = Ok e ->
      getCategoryXML string strict_textToDom clash_host [block_backed "b2"]
        "get" (fun _ => false) = Ok o2 ->
      getCategoryXML string strict_textToDom clash_host
        ([block_backed "b1"] ++ primitive "PI" :: [block_backed "b2"])
        "get" (fun _ => false)
      = Ok (o1 ++ e :: o2)) /\
  (forall la lb,
      getCategoryXML string strict_textToDom clash_host (la ++ lb)
        "get" (fun _ => false) =
      (oa <- getCategoryXML string strict_textToDom clash_host la
               "get" (fun _ => false) ;;
       ob <- getCategoryXML string strict_textToDom clash_host lb
               "get" (fun _ => false) ;;
       Ok (oa ++ ob))).
Proof.
  apply (getCategoryXML_primitive_passthrough string strict_textToDom clash_host
           [block_backed "b1"] [block_backed "b2"] (primitive "PI") "PI"
           "get" (fun _ => false)).
  - reflexivity.
  - reflexivity.
  - discriminate.
Defined.

(** C9 as stated fails: the call raises, and renders nothing, when another
    entry names a workspace that [Workspace.getById] does not know, and when
    [textToDom] refuses the text built from the primitive's own name. *)
Lemma primitive_passthrough_counterexample :
  getCategoryXML string lenient_textToDom clash_host
    [primitive "PI"; {| id := "b1"; wid := "closed"; name := None |}]
    "get" default_filter = TypeError /\
  getCategoryXML string strict_textToDom clash_host
    [primitive "a<b"] "get" default_filter = TypeError.
Proof. split; reflexivity. Qed.

(** With a filter that rejects every block only the primitive is left; with
    the default filter the entries come out in registry order. *)
Example category_rejecting_filter :
  getCategoryXML string strict_textToDom clash_host
    [block_backed "b1"; primitive "PI"; block_backed "b2"] "get" (fun _ => false)
  = Ok [blockText "get" "PI"].
Proof. reflexivity. Qed.

Example category_default_filter :
  getCategoryXML string strict_textToDom clash_host
    [block_backed "b1"; primitive "PI"; block_backed "b2"] "get" default_filter
  = Ok [blockText "get" "b1"; blockText "get" "PI"; blockText "get" "b2"].
Proof. reflexivity. Qed.

(** ** End to end *)

(** C6, as the code has it. Seed the registry with the primitive [PI] and
    declare the block [b1] while it has no parent.  A query from a block
    without a parent returns [PI; b1].  Once a statement block [P] holds the
    sequence [b1; G], a query from the getter [G] returns the record of [b1]
    alone: the walk builds its result from sibling blocks, and [PI] has
    none. *)
Theorem end_to_end_scenario
    (before after : Host) (pi_wid : string) (b1 top G P : Block)
    (w wP : Workspace) :
  let PI := {| id := EmptyString; wid := pi_wid; name := Some "PI"%string |} in
  let d1 := {| id := block_id before b1; wid := workspace_id before w; name := None |} in
  let this_list := declare before (addInitialListValues [] [PI]) (Some b1) in
  isInFlyout before b1 = false ->
  workspace before b1 = Some w ->
  block_id before b1 <> EmptyString ->
  getParent before b1 = None ->
  getParent before top = None ->
  block_id after b1 = block_id before b1 ->
  workspace after b1 = Some w ->
  workspace_id after w = workspace_id before w ->
  getParent after G = Some P ->
  getChildren after P = [b1; G] ->
  b1 <> G ->
  find_id this_list (block_id after G) = None ->
  getParent after P = None ->
  workspace after P = Some wP ->
  getTopBlocks after wP = [P] ->
  find_id this_list (block_id after P) = None ->
  this_list = [PI; d1] /\
  getAccessibleDeclarations before this_list top = Ok [PI; d1] /\
  getAccessibleDeclarations after this_list G = Ok [d1].
Proof.
  intros PI d1 this_list Hf Hw Hid _ Htop Hid' Hw' Hwid HG HP Hne HnG HPtop HwP Htops HnP.
  assert (Hl : this_list = [PI; d1]).
  { unfold this_list, addInitialListValues. simpl app.
    rewrite (declare_accepted before [PI] b1 w Hf Hw).
    unfold find_id. cbn [find id PI].
    destruct (String.eqb_spec EmptyString (block_id before b1)) as [E|_];
      [symmetry in E; contradiction | reflexivity]. }
  split; [exact Hl|]. split.
  - unfold getAccessibleDeclarations. rewrite Htop, Hl. reflexivity.
  - assert (Hr1 : registered after this_list b1 = true).
    { unfold registered. rewrite Hid', Hl. unfold find_id. cbn [find id PI d1].
      destruct (String.eqb_spec EmptyString (block_id before b1)) as [E|_];
        [symmetry in E; contradiction|].
      rewrite String.eqb_refl. reflexivity. }
    unfold getAccessibleDeclarations. rewrite HG.
    change max_iter with (S (S 98)). cbn [walk].
    unfold scopeLevel at 1. cbn [siblings bind]. rewrite HP.
    unfold scopeVars, filteri, indexOf. cbn [indexOf_from filter_from].
    destruct (Nat.eqb_spec b1 G) as [?|_]; [contradiction|].
    rewrite Nat.eqb_refl. unfold visible.
    fold (registered after this_list b1). fold (registered after this_list G).
    rewrite Hr1. unfold registered at 1. rewrite HnG. cbn [truthy andb orb Z.leb Z.compare Z.add Z.eqb Pos.compare].
    simpl mapM. unfold toDeclaration at 1. rewrite Hw'. cbn [deref bind].
    rewrite HPtop. unfold scopeLevel. cbn [siblings]. rewrite HwP. cbn [deref bind].
    rewrite Htops. unfold scopeVars, filteri, indexOf. cbn [indexOf_from filter_from].
    rewrite Nat.eqb_refl. unfold visible. rewrite HnP.
    cbn. rewrite Hid', Hwid. reflexivity.
Qed.

Lemma end_to_end_scenario_witness :
  declare e2e_before (addInitialListValues [] [primitive "PI"]) (Some 1%nat)
  = [primitive "PI"; block_backed "b1"] /\
  getAccessibleDeclarations e2e_before
    (declare e2e_before (addInitialListValues [] [primitive "PI"]) (Some 1%nat))
    9%nat
  = Ok [primitive "PI"; block_backed "b1"] /\
  getAccessibleDeclarations e2e_after
    (declare e2e_before (addInitialListValues [] [primitive "PI"]) (Some 1%nat))
    2%nat
  = Ok [block_backed "b1"].
Proof.
  apply (end_to_end_scenario e2e_before e2e_after "w" 1%nat 9%nat 2%nat 0%nat O O);
    try reflexivity; discriminate.
Defined.

(** C6 as stated fails on its nested query: with [b1] before the getter in
    the same sequence, the result is not [PI; b1]. *)
Lemma nested_query_counterexample :
  let this_list :=
    declare e2e_before (addInitialListValues [] [primitive "PI"]) (Some 1%nat) in
  getParent e2e_before 1%nat = None /\
  getParent e2e_after 2%nat = Some 0%nat /\
  getChildren e2e_after 0%nat = [1; 2]%nat /\
  getAccessibleDeclarations e2e_after this_list 2%nat
  <> Ok [primitive "PI"; block_backed "b1"].
Proof.
  vm_compute. repeat split. discriminate.
Qed.

(** * Further properties of the registry *)

(** ** [declare] and [addInitialListValues] *)

(** X1. [declare] never removes, reorders or rewrites an entry: the registry it
    is given is a prefix of the registry it returns, and at most one entry
    is added, for every argument. *)
Theorem declare_extends
    (h : Host) (this_list : list Declaration) (block : option Block) :
  exists suffix,
    declare h this_list block = this_list ++ suffix /\
    (List.length suffix <= 1)%nat.
Proof.
  assert (Hsame : exists suffix,
             this_list = this_list ++ suffix /\ (List.length suffix <= 1)%nat).
  { exists []. rewrite app_nil_r. simpl. split; [reflexivity | lia]. }
  destruct block as [b|]; [|exact Hsame]. unfold declare.
  destruct (isInFlyout h b); [exact Hsame|].
  destruct (workspace h b) as [w|]; [|exact Hsame].
  destruct (truthy (find_id this_list (block_id h b))); [exact Hsame|].
  rewrite andb_false_r. eexists. split; [reflexivity | simpl; lia].
Qed.

(** X2. Declaring a block leaves the lookup of every other id as it was. *)
Theorem declare_other_ids
    (h : Host) (this_list : list Declaration) (b : Block) (i : string) :
  i <> block_id h b ->
  find_id (declare h this_list (Some b)) i = find_id this_list i.
Proof.
  intros Hi.
  destruct (isInFlyout h b) eqn:Ef; [unfold declare; rewrite Ef; reflexivity|].
  destruct (workspace h b) as [w|] eqn:Ew;
    [|unfold declare; rewrite Ef, Ew; reflexivity].
  rewrite (declare_accepted h this_list b w Ef Ew).
  destruct (truthy (find_id this_list (block_id h b))); [reflexivity|].
  rewrite find_id_app. destruct (find_id this_list i); [reflexivity|].
  unfold find_id. simpl.
  destruct (String.eqb_spec (block_id h b) i) as [E|_]; [|reflexivity].
  symmetry in E. contradiction.
Qed.

Lemma declare_other_ids_witness :
  find_id (declare clash_host [block_backed "b1"] (Some 2%nat)) "b1"
  = find_id [block_backed "b1"] "b1".
Proof.
  apply (declare_other_ids clash_host [block_backed "b1"] 2%nat "b1").
  discriminate.
Defined.

(** X3. Looking up a block's id after it was declared: the entry that was
    already there if there was one (a seeded entry of that id wins), the new
    record [{id, wid}] without a name otherwise. *)
Theorem declare_then_find
    (h : Host) (this_list : list Declaration) (b : Block) (w : Workspace) :
  isInFlyout h b = false ->
  workspace h b = Some w ->
  find_id (declare h this_list (Some b)) (block_id h b) =
  match find_id this_list (block_id h b) with
  | Some d => Some d
  | None => Some {| id := block_id h b; wid := workspace_id h w; name := None |}
  end.
Proof.
  intros Hf Hw. rewrite (declare_accepted h this_list b w Hf Hw).
  destruct (find_id this_list (block_id h b)) as [d|] eqn:E; simpl.
  - exact E.
  - rewrite find_id_app, E. unfold find_id. simpl.
    rewrite String.eqb_refl. reflexivity.
Qed.

Lemma declare_then_find_witness :
  find_id (declare clash_host [block_backed "b1"] (Some 2%nat)) "b2"
  = Some (block_backed "b2").
Proof.
  apply (declare_then_find clash_host [block_backed "b1"] 2%nat O); reflexivity.
Defined.

Lemma find_id_None_not_In (l : list Declaration) (i : string) :
  find_id l i = None -> ~ In i (map id l).
Proof.
  unfold find_id. induction l as [|d l IH]; simpl; [intros _ []|].
  destruct (String.eqb_spec (id d) i) as [E|Hne]; [discriminate|].
  intros H [Hd|Hin]; [contradiction | exact (IH H Hin)].
Qed.

Lemma NoDup_snoc {A : Type} (l : list A) (x : A) :
  NoDup l -> ~ In x l -> NoDup (l ++ [x]).
Proof.
  induction l as [|a l IH]; simpl; intros Hnd Hx.
  - constructor; [intros [] | constructor].
  - inversion Hnd as [|? ? Ha Hl]; subst. constructor.
    + intros Hin. apply in_app_or in Hin. destruct Hin as [Hin|[->|[]]].
      * exact (Ha Hin).
      * apply Hx. left; reflexivity.
    + apply IH; [exact Hl | intros Hin; apply Hx; right; exact Hin].
Qed.

(** X4. [declare] keeps the invariant of the registry: when no two entries
    share an id, the same holds after the call, for every argument. *)
Theorem declare_preserves_unique_ids
    (h : Host) (this_list : list Declaration) (block : option Block) :
  NoDup (map id this_list) ->
  NoDup (map id (declare h this_list block)).
Proof.
  intros Hnd. destruct block as [b|]; [|exact Hnd].
  destruct (isInFlyout h b) eqn:Ef; [unfold declare; rewrite Ef; exact Hnd|].
  destruct (workspace h b) as [w|] eqn:Ew;
    [|unfold declare; rewrite Ef, Ew; exact Hnd].
  rewrite (declare_accepted h this_list b w Ef Ew).
  destruct (find_id this_list (block_id h b)) as [d|] eqn:E; simpl; [exact Hnd|].
  rewrite map_app. simpl.
  apply NoDup_snoc; [exact Hnd | apply find_id_None_not_In; exact E].
Qed.

Lemma declare_preserves_unique_ids_witness :
  NoDup (map id (declare clash_host [primitive "PI"; block_backed "b1"] (Some 2%nat))).
Proof.
  apply (declare_preserves_unique_ids clash_host
           [primitive "PI"; block_backed "b1"] (Some 2%nat)).
  simpl. repeat constructor; simpl; intuition discriminate.
Defined.

(** X5. A seeded entry that carries a block's id shadows the block: declaring
    the block afterwards adds nothing. *)
Theorem seeded_id_blocks_declare
    (h : Host) (this_list l : list Declaration) (b : Block) (d : Declaration) :
  In d l ->
  id d = block_id h b ->
  declare h (addInitialListValues this_list l) (Some b)
  = addInitialListValues this_list l.
Proof.
  intros Hin Hid. apply declare_known. unfold addInitialListValues.
  assert (H : exists e, find_id (this_list ++ l) (block_id h b) = Some e).
  { unfold find_id.
    destruct (find (fun value => String.eqb (id value) (block_id h b)) (this_list ++ l))
      as [e|] eqn:E; [exists e; reflexivity|].
    exfalso.
    pose proof (find_none _ _ E d (in_or_app _ _ _ (or_intror Hin))) as Hd.
    cbv beta in Hd. rewrite Hid, String.eqb_refl in Hd. discriminate. }
  destruct H as (e & ->). reflexivity.
Qed.

Lemma seeded_id_blocks_declare_witness :
  declare clash_host (addInitialListValues [] [primitive "PI"; block_backed "b1"])
          (Some 1%nat)
  = addInitialListValues [] [primitive "PI"; block_backed "b1"].
Proof.
  apply (seeded_id_blocks_declare clash_host [] [primitive "PI"; block_backed "b1"]
           1%nat (block_backed "b1")).
  - right; left; reflexivity.
  - reflexivity.
Defined.

(** ** [getAccessibleDeclarations]: errors *)

Lemma mapM_raises {A B : Type} (f : A -> outcome B) (l : list A) (a : A) :
  In a l -> f a = TypeError -> mapM f l = TypeError.
Proof.
  induction l as [|x l IH]; simpl; intros Hin Hf; [destruct Hin|].
  destruct Hin as [->|Hin].
  - rewrite Hf. reflexivity.
  - destruct (f x); simpl; [|reflexivity]. rewrite (IH Hin Hf). reflexivity.
Qed.

Lemma mapM_In_Ok {A B : Type} (f : A -> outcome B) (l : list A) (bs : list B)
    (a : A) (b : B) :
  mapM f l = Ok bs -> In a l -> f a = Ok b -> In b bs.
Proof.
  revert bs. induction l as [|x l IH]; simpl; intros bs H Hin Hf; [destruct Hin|].
  apply bind_Ok_inv in H. destruct H as (b0 & Hx & H).
  apply bind_Ok_inv in H. destruct H as (bs0 & Hm & H).
  inversion H; subst. destruct Hin as [->|Hin].
  - left. congruence.
  - right. exact (IH _ Hm Hin Hf).
Qed.

Lemma filter_from_nth {A : Type} (f : A -> Z -> bool) (l : list A) (i : Z)
    (j : nat) (a : A) :
  nth_error l j = Some a -> f a (i + Z.of_nat j) = true ->
  In a (filter_from f i l).
Proof.
  revert i j. induction l as [|x l IH]; intros i j Hn Hf; [destruct j; discriminate|].
  destruct j as [|j]; simpl in Hn.
  - inversion Hn; subst. simpl. rewrite Z.add_0_r in Hf. rewrite Hf. left; reflexivity.
  - assert (Hin : In a (filter_from f (i + 1) l)).
    { apply (IH (i + 1) j Hn). replace (i + 1 + Z.of_nat j) with (i + Z.of_nat (S j)) by lia.
      exact Hf. }
    simpl. destruct (f x i); [right; exact Hin | exact Hin].
Qed.

Lemma walk_first_level_raises (h : Host) (this_list : list Declaration)
    (fuel iter : nat) (block : Block) (parent : option Block)
    (acc : list Declaration) :
  scopeLevel h this_list block parent = TypeError ->
  walk h this_list (S fuel) iter block parent acc = TypeError.
Proof.
  intros H. simpl. rewrite H. reflexivity.
Qed.

(** X6. On a host where every block has a workspace the query returns, for
    every registry and every block, however deep or cyclic the chain. *)
Theorem getAccessibleDeclarations_never_raises
    (h : Host) (this_list : list Declaration) (block : Block) :
  attached h ->
  exists r, getAccessibleDeclarations h this_list block = Ok r.
Proof.
  apply getAccessibleDeclarations_total.
Qed.

Lemma getAccessibleDeclarations_never_raises_witness :
  exists r, getAccessibleDeclarations tower_host [block_backed "x"] 7%nat = Ok r.
Proof.
  apply (getAccessibleDeclarations_never_raises tower_host [block_backed "x"] 7%nat).
  exact tower_attached.
Defined.

(** X7. The query raises when a registered sibling that the first level keeps
    (at or before the block, or anywhere when the block is not among the
    children) has no workspace: [b.workspace.id] is read without a guard.
    This also holds when the chain is so deep that the registry would be
    returned in the end. *)
Theorem getAccessibleDeclarations_raises_on_orphan
    (h : Host) (this_list : list Declaration) (block p s : Block) (j : nat) :
  getParent h block = Some p ->
  nth_error (getChildren h p) j = Some s ->
  Z.of_nat j <= indexOf (getChildren h p) block \/
  indexOf (getChildren h p) block = -1 ->
  registered h this_list s = true ->
  workspace h s = None ->
  getAccessibleDeclarations h this_list block = TypeError.
Proof.
  intros Hp Hn Hj Hreg Hw. unfold getAccessibleDeclarations. rewrite Hp.
  change max_iter with (S 99). rewrite walk_first_level_raises; [reflexivity|].
  unfold scopeLevel. simpl. unfold scopeVars.
  apply mapM_raises with (a := s).
  - unfold filteri. apply (filter_from_nth _ _ 0 j s Hn).
    unfold visible. fold (registered h this_list s). rewrite Hreg, andb_true_r.
    apply orb_true_iff. destruct Hj as [Hj|Hj].
    + left. apply Z.leb_le. lia.
    + right. apply Z.eqb_eq. exact Hj.
  - unfold toDeclaration. rewrite Hw. reflexivity.
Qed.

Lemma getAccessibleDeclarations_raises_on_orphan_witness :
  getAccessibleDeclarations Builder.orphan_host family_list 4%nat = TypeError.
Proof.
  apply (getAccessibleDeclarations_raises_on_orphan
           Builder.orphan_host family_list 4%nat 0%nat 2%nat 1%nat).
  - reflexivity.
  - reflexivity.
  - left. vm_compute. discriminate.
  - reflexivity.
  - reflexivity.
Defined.

Lemma walk_root_raises (h : Host) (this_list : list Declaration)
    (fuel iter : nat) (block : Block) (acc : list Declaration)
    (k : nat) (root : Block) :
  (k < fuel)%nat ->
  ancestor h k block = Some root ->
  getParent h root = None ->
  workspace h root = None ->
  walk h this_list fuel iter block (getParent h block) acc = TypeError.
Proof.
  revert iter block acc k.
  induction fuel as [|fuel IH]; intros iter block acc k Hk Ha Hroot Hw; [lia|].
  destruct k as [|k]; simpl in Ha.
  - inversion Ha; subst block. apply walk_first_level_raises.
    rewrite Hroot. unfold scopeLevel, siblings. rewrite Hw. reflexivity.
  - destruct (getParent h block) as [p|] eqn:Ep; [|discriminate].
    simpl. destruct (scopeLevel h this_list block (Some p)); simpl; [|reflexivity].
    apply (IH _ _ _ k); [lia | exact Ha | exact Hroot | exact Hw].
Qed.

(** X8. The query from a nested block raises when the walk reaches, within the
    bound, a parentless ancestor that has no workspace: its top-level
    siblings are read through [block.workspace]. *)
Theorem getAccessibleDeclarations_raises_at_root
    (h : Host) (this_list : list Declaration) (block : Block)
    (k : nat) (root : Block) :
  (1 <= k < max_iter)%nat ->
  ancestor h k block = Some root ->
  getParent h root = None ->
  workspace h root = None ->
  getAccessibleDeclarations h this_list block = TypeError.
Proof.
  intros [Hk1 Hk] Ha Hroot Hw. unfold getAccessibleDeclarations.
  destruct (getParent h block) as [p|] eqn:Ep.
  - rewrite <- Ep.
    rewrite (walk_root_raises h this_list max_iter 0 block [] k root Hk Ha Hroot Hw).
    reflexivity.
  - destruct k as [|k]; [lia|]. simpl in Ha. rewrite Ep in Ha. discriminate.
Qed.

Lemma getAccessibleDeclarations_raises_at_root_witness :
  getAccessibleDeclarations Builder.rootless_host family_list 3%nat = TypeError.
Proof.
  apply (getAccessibleDeclarations_raises_at_root
           Builder.rootless_host family_list 3%nat 1%nat 0%nat).
  - unfold max_iter. lia.
  - reflexivity.
  - reflexivity.
  - reflexivity.
Defined.

(** ** [getAccessibleDeclarations]: what the result depends on, and its order *)

Section RegistryIds.

Variable h : Host.
Variables l1 l2 : list Declaration.
Hypothesis same_ids : forall i, truthy (find_id l1 i) = truthy (find_id l2 i).

Lemma filter_from_same_ids (index : Z) (blocks : list Block) (i : Z) :
  filter_from (visible h l1 index) i blocks = filter_from (visible h l2 index) i blocks.
Proof.
  revert i. induction blocks as [|b blocks IH]; intros i; simpl; [reflexivity|].
  replace (visible h l1 index b i) with (visible h l2 index b i)
    by (unfold visible; rewrite same_ids; reflexivity).
  rewrite IH. reflexivity.
Qed.

Lemma scopeLevel_same_ids (block : Block) (parent : option Block) :
  scopeLevel h l1 block parent = scopeLevel h l2 block parent.
Proof.
  unfold scopeLevel. destruct (siblings h block parent) as [blocks|]; simpl; [|reflexivity].
  unfold scopeVars, filteri. rewrite filter_from_same_ids. reflexivity.
Qed.

Lemma walk_same_ids (fuel iter : nat) (block : Block) (parent : option Block)
    (acc : list Declaration) :
  walk h l1 fuel iter block parent acc = walk h l2 fuel iter block parent acc.
Proof.
  revert iter block parent acc.
  induction fuel as [|fuel IH]; intros iter block parent acc; simpl; [reflexivity|].
  rewrite scopeLevel_same_ids.
  destruct (scopeLevel h l2 block parent) as [vars|]; simpl; [|reflexivity].
  destruct parent as [p|]; [apply IH | reflexivity].
Qed.

End RegistryIds.

(** X9. A nested query that stays within the bound reads the registry only to
    test which ids are registered: two registries with the same registered
    ids give the same result (or both raise), whatever their order, their
    [wid]s, their names or their duplicates. *)
Theorem nested_query_reads_ids_only
    (h : Host) (l1 l2 : list Declaration) (block : Block) :
  (forall i, truthy (find_id l1 i) = truthy (find_id l2 i)) ->
  getParent h block <> None ->
  ancestor h max_iter block = None ->
  getAccessibleDeclarations h l1 block = getAccessibleDeclarations h l2 block.
Proof.
  intros Hids Hp Ha. unfold getAccessibleDeclarations.
  destruct (getParent h block) as [p|] eqn:Ep; [clear Hp | congruence].
  rewrite (walk_same_ids h l1 l2 Hids). rewrite <- Ep.
  destruct (walk h l2 max_iter 0 block (getParent h block) []) as [[i r]|] eqn:Ew;
    [|reflexivity].
  pose proof (walk_break h l2 _ _ _ _ _ _ Ha Ew) as Hi. rewrite Nat.add_0_l in Hi.
  cbn [bind fst snd]. destruct (Nat.leb_spec max_iter i) as [Hle|_]; [lia | reflexivity].
Qed.

Lemma nested_query_reads_ids_only_witness :
  getAccessibleDeclarations family_host family_list 4%nat
  = getAccessibleDeclarations family_host
      [{| id := "D"; wid := "elsewhere"; name := Some "d"%string |};
       block_backed "B"; block_backed "A"; block_backed "A";
       block_backed EmptyString] 4%nat.
Proof.
  apply (nested_query_reads_ids_only family_host).
  - intros i. unfold find_id, family_list, primitive, block_backed. cbn [find id].
    destruct (String.eqb_spec EmptyString i) as [<-|_]; [reflexivity|].
    destruct (String.eqb_spec "A" i) as [<-|_]; [reflexivity|].
    destruct (String.eqb_spec "B" i) as [<-|_]; [reflexivity|].
    destruct (String.eqb_spec "D" i) as [<-|_]; reflexivity.
  - discriminate.
  - reflexivity.
Defined.

Lemma walk_two_levels (h : Host) (this_list : list Declaration)
    (fuel iter : nat) (block : Block) (acc : list Declaration)
    (i : nat) (r : list Declaration) (j k : nat) (cj ck : Block) :
  walk h this_list fuel iter block (getParent h block) acc = Ok (i, r) ->
  (i < iter + fuel)%nat ->
  (j < k)%nat ->
  ancestor h j block = Some cj ->
  ancestor h k block = Some ck ->
  exists vj vk pre mid post,
    scopeLevel h this_list cj (getParent h cj) = Ok vj /\
    scopeLevel h this_list ck (getParent h ck) = Ok vk /\
    r = acc ++ pre ++ vj ++ mid ++ vk ++ post.
Proof.
  revert iter block acc j k.
  induction fuel as [|fuel IH]; intros iter block acc j k H Hi Hjk Hj Hk; simpl in H.
  - inversion H; subst. lia.
  - apply bind_Ok_inv in H. destruct H as (vars0 & Hl & H).
    destruct k as [|k]; [lia|]. simpl in Hk.
    destruct (getParent h block) as [p|] eqn:Ep; [|discriminate].
    destruct j as [|j]; simpl in Hj.
    + inversion Hj; subst cj. rewrite Ep.
      destruct (walk_level h this_list _ _ _ _ _ _ k ck H ltac:(lia) Hk)
        as (vk & pre & post & Hvk & Hr & _).
      exists vars0, vk, [], pre, post. split; [exact Hl|]. split; [exact Hvk|].
      rewrite Hr. simpl. rewrite <- !app_assoc. reflexivity.
    + rewrite Ep in Hj.
      destruct (IH (S iter) p (acc ++ vars0) j k H ltac:(lia) ltac:(lia) Hj Hk)
        as (vj & vk & pre & mid & post & Hvj & Hvk & Hr).
      exists vj, vk, (vars0 ++ pre), mid, post. split; [exact Hvj|]. split; [exact Hvk|].
      rewrite Hr. rewrite <- !app_assoc. reflexivity.
Qed.

(** X10. Inner scopes come first: in the result of a nested query that stays
    within the bound, the declarations of a level stand before those of
    every level further up the chain. *)
Theorem getAccessibleDeclarations_innermost_first
    (h : Host) (this_list : list Declaration) (block : Block)
    (j k : nat) (cj ck : Block) (r : list Declaration) :
  getParent h block <> None ->
  ancestor h max_iter block = None ->
  (j < k)%nat ->
  ancestor h j block = Some cj ->
  ancestor h k block = Some ck ->
  getAccessibleDeclarations h this_list block = Ok r ->
  exists vj vk pre mid post,
    scopeLevel h this_list cj (getParent h cj) = Ok vj /\
    scopeLevel h this_list ck (getParent h ck) = Ok vk /\
    r = pre ++ vj ++ mid ++ vk ++ post.
Proof.
  intros Hp Ha Hjk Hj Hk H.
  destruct (getParent h block) as [p|] eqn:Ep; [clear Hp | congruence].
  destruct (nested_walk_breaks h this_list block p r Ep Ha H) as (i & Hw & Hi).
  destruct (walk_two_levels h this_list _ _ _ _ _ _ j k cj ck Hw Hi Hjk Hj Hk)
    as (vj & vk & pre & mid & post & Hvj & Hvk & Hr).
  exists vj, vk, pre, mid, post. auto.
Qed.

Lemma getAccessibleDeclarations_innermost_first_witness :
  exists vj vk pre mid post,
    scopeLevel Builder.nest_host [block_backed "outer"; block_backed "inner"]
      2%nat (getParent Builder.nest_host 2%nat) = Ok vj /\
    scopeLevel Builder.nest_host [block_backed "outer"; block_backed "inner"]
      1%nat (getParent Builder.nest_host 1%nat) = Ok vk /\
    [block_backed "inner"; block_backed "outer"] = pre ++ vj ++ mid ++ vk ++ post.
Proof.
  apply (getAccessibleDeclarations_innermost_first Builder.nest_host
           [block_backed "outer"; block_backed "inner"] 3%nat 1%nat 2%nat 2%nat 1%nat).
  - discriminate.
  - reflexivity.
  - lia.
  - reflexivity.
  - reflexivity.
  - reflexivity.
Defined.

(** The levels of the witness, evaluated: the inner declaration comes
    before the outer one although the registry lists them the other way. *)
Example nest_levels :
  scopeLevel Builder.nest_host [block_backed "outer"; block_backed "inner"]
    2%nat (Some 1%nat) = Ok [block_backed "inner"] /\
  scopeLevel Builder.nest_host [block_backed "outer"; block_backed "inner"]
    1%nat None = Ok [block_backed "outer"].
Proof. split; reflexivity. Qed.

(** X11. A declaration block is in its own scope: once declared, a block that
    has a parent and is among that parent's children finds its own record in
    the result of a query made from it (within the bound). *)
Theorem declared_block_sees_itself
    (h : Host) (this_list : list Declaration) (b p : Block) (w : Workspace)
    (r : list Declaration) :
  isInFlyout h b = false ->
  workspace h b = Some w ->
  getParent h b = Some p ->
  In b (getChildren h p) ->
  ancestor h max_iter b = None ->
  getAccessibleDeclarations h (declare h this_list (Some b)) b = Ok r ->
  In {| id := block_id h b; wid := workspace_id h w; name := None |} r.
Proof.
  intros Hf Hw Hp Hin Ha H.
  destruct (level_segment h (declare h this_list (Some b)) b O b (getChildren h p) r)
    as (vars & pre & post & Hv & -> & _);
    [congruence | exact Ha | reflexivity | rewrite Hp; reflexivity | exact H |].
  apply in_or_app; right. apply in_or_app; left.
  unfold scopeVars in Hv.
  apply (mapM_In_Ok _ _ _ b _ Hv); [|unfold toDeclaration; rewrite Hw; reflexivity].
  pose proof (indexOf_from_present (getChildren h p) b 0 (Z.le_refl 0) Hin) as Hidx.
  destruct (indexOf_from_first (getChildren h p) b 0) as [Hn _]; [lia | lia |].
  rewrite Z.sub_0_r in Hn. fold (indexOf (getChildren h p) b) in Hn, Hidx.
  unfold filteri. apply (filter_from_nth _ _ 0 _ b Hn).
  unfold visible. rewrite Z2Nat.id by exact Hidx. rewrite Z.add_0_l, Z.leb_refl.
  simpl. apply declare_registers; [exact Hf | congruence].
Qed.

Lemma declared_block_sees_itself_witness :
  In (block_backed "C")
     [block_backed "A"; block_backed "B"; block_backed "C"].
Proof.
  apply (declared_block_sees_itself family_host family_list 3%nat 0%nat O).
  - reflexivity.
  - reflexivity.
  - reflexivity.
  - right; right; left; reflexivity.
  - reflexivity.
  - reflexivity.
Defined.

(** ** [getCategoryXML]: block-backed entries, errors and filters *)

Section CategoryEntries.

Variable Element : Type.
Variable textToDom : string -> outcome Element.
Variable h : Host.
Variable typeName : string.

Local Abbreviation render := (getCategoryXML Element textToDom h).
Local Abbreviation element :=
  (fun value => block <- textToDom (blockText typeName value) ;; Ok [block]).

Lemma getCategoryXML_cons (filter : option Block -> bool) (d : Declaration)
    (l : list Declaration) :
  render (d :: l) typeName filter =
  (o1 <- render [d] typeName filter ;; o2 <- render l typeName filter ;; Ok (o1 ++ o2)).
Proof.
  change (d :: l) with ([d] ++ l). apply getCategoryXML_app.
Qed.

Lemma getCategoryXML_single (filter : option Block -> bool) (d : Declaration) :
  render [d] typeName filter =
  if Builder.isPrimitive d then
    element (match name d with Some n => n | None => EmptyString end)
  else
    w <- deref (Workspace_getById h (wid d)) ;;
    if filter (getBlockById h w (id d)) then element (id d) else Ok [].
Proof.
  unfold getCategoryXML, Builder.isPrimitive. simpl. unfold pushEntry.
  destruct (String.eqb (id d) EmptyString && truthy_string (name d)); cbv zeta.
  - destruct (textToDom _); reflexivity.
  - destruct (Workspace_getById h (wid d)) as [w|]; simpl; [|reflexivity].
    destruct (filter (getBlockById h w (id d))); [|reflexivity].
    destruct (textToDom _); reflexivity.
Qed.

(** When the call returns, it has built one element for each entry that is
    a primitive or that the filter accepts. *)
Lemma getCategoryXML_count (filter : option Block -> bool) (l : list Declaration)
    (out : list Element) :
  render l typeName filter = Ok out ->
  List.length out = List.length (List.filter (Builder.accepts h filter) l).
Proof.
  revert out. induction l as [|d l IH]; intros out H.
  - inversion H; subst. reflexivity.
  - rewrite getCategoryXML_cons in H.
    apply bind_Ok_inv in H. destruct H as (o1 & H1 & H).
    apply bind_Ok_inv in H. destruct H as (o2 & H2 & H).
    inversion H; subst. rewrite length_app, (IH _ H2).
    rewrite getCategoryXML_single in H1. simpl. unfold Builder.accepts at 2.
    destruct (Builder.isPrimitive d); simpl.
    + apply bind_Ok_inv in H1. destruct H1 as (e & _ & H1). inversion H1; subst.
      reflexivity.
    + apply bind_Ok_inv in H1. destruct H1 as (w & Hw & H1).
      destruct (Workspace_getById h (wid d)) as [w'|]; [|discriminate].
      inversion Hw; subst w'.
      destruct (filter (getBlockById h w (id d))).
      * apply bind_Ok_inv in H1. destruct H1 as (e & _ & H1). inversion H1; subst.
        reflexivity.
      * inversion H1; subst. reflexivity.
Qed.

Lemma filter_length_le {A : Type} (p : A -> bool) (l : list A) :
  (List.length (List.filter p l) <= List.length l)%nat.
Proof.
  induction l as [|a l IH]; simpl; [lia|]. destruct (p a); simpl; lia.
Qed.

Lemma filter_length_mono {A : Type} (p q : A -> bool) (l : list A) :
  (forall a, p a = true -> q a = true) ->
  (List.length (List.filter p l) <= List.length (List.filter q l))%nat.
Proof.
  intros Hpq. induction l as [|a l IH]; simpl; [lia|].
  destruct (p a) eqn:Ep.
  - rewrite (Hpq a Ep). simpl. lia.
  - destruct (q a); simpl; lia.
Qed.

Lemma getCategoryXML_length (filter : option Block -> bool) (l : list Declaration)
    (out : list Element) :
  render l typeName filter = Ok out -> (List.length out <= List.length l)%nat.
Proof.
  intros H. rewrite (getCategoryXML_count filter l out H). apply filter_length_le.
Qed.


Lemma getCategoryXML_filter_ext (f g : option Block -> bool) (l : list Declaration) :
  (forall d w, In d l -> Workspace_getById h (wid d) = Some w ->
               f (getBlockById h w (id d)) = g (getBlockById h w (id d))) ->
  render l typeName f = render l typeName g.
Proof.
  induction l as [|d l IH]; intros Hfg; [reflexivity|].
  rewrite (getCategoryXML_cons f d l), (getCategoryXML_cons g d l).
  rewrite (getCategoryXML_single f d), (getCategoryXML_single g d).
  rewrite IH by (intros d' w Hin; apply Hfg; right; exact Hin).
  destruct (Builder.isPrimitive d); [reflexivity|].
  destruct (Workspace_getById h (wid d)) as [w|] eqn:Ew; [|reflexivity].
  cbn [deref bind]. rewrite (Hfg d w (or_introl eq_refl) Ew). reflexivity.
Qed.

End CategoryEntries.

(** X12. An entry that is not a primitive with a name, and whose [wid]
    resolves, stands in the output at its place in registry order.  Whenever
    the call returns, its output is the output for the entries before, then,
    if the filter accepts the block that [getBlockById] finds ([null] when
    the block is gone), the one element that [textToDom] builds from the text
    [<block type="TYPE"><field name="name">ID</field></block>] with the
    entry's id, then the output for the entries after.  When the filter
    rejects the block nothing is built for the entry, and [textToDom] is not
    called for it. *)
Theorem getCategoryXML_block_backed
    (Element : Type) (textToDom : string -> outcome Element) (h : Host)
    (l1 l2 : list Declaration) (d : Declaration) (w : Workspace)
    (typeName : string) (filter : option Block -> bool) :
  Builder.isPrimitive d = false ->
  Workspace_getById h (wid d) = Some w ->
  let text :=
    ("<block type=" ++ String "034" typeName ++ String "034" "><field name="
     ++ String "034" "name" ++ String "034" ">" ++ id d
     ++ "</field></block>")%string in
  (forall out,
      getCategoryXML Element textToDom h (l1 ++ d :: l2) typeName filter = Ok out ->
      exists o1 o2,
        getCategoryXML Element textToDom h l1 typeName filter = Ok o1 /\
        getCategoryXML Element textToDom h l2 typeName filter = Ok o2 /\
        if filter (getBlockById h w (id d))
        then exists e, textToDom text = Ok e /\ out = o1 ++ e :: o2
        else out = o1 ++ o2) /\
  getCategoryXML Element textToDom h (l1 ++ d :: l2) typeName filter =
  (o1 <- getCategoryXML Element textToDom h l1 typeName filter ;;
   e <- (if filter (getBlockById h w (id d))
         then block <- textToDom text ;; Ok [block]
         else Ok []) ;;
   o2 <- getCategoryXML Element textToDom h l2 typeName filter ;;
   Ok (o1 ++ e ++ o2)).
Proof.
  intros Hp Hw text.
  assert (Heq : getCategoryXML Element textToDom h (l1 ++ d :: l2) typeName filter =
                (o1 <- getCategoryXML Element textToDom h l1 typeName filter ;;
                 e <- (if filter (getBlockById h w (id d))
                       then block <- textToDom text ;; Ok [block]
                       else Ok []) ;;
                 o2 <- getCategoryXML Element textToDom h l2 typeName filter ;;
                 Ok (o1 ++ e ++ o2))).
  { rewrite getCategoryXML_app, getCategoryXML_cons, getCategoryXML_single.
    rewrite Hp, Hw, blockText_template. fold text. cbn [deref bind].
    destruct (getCategoryXML Element textToDom h l1 typeName filter); cbn [bind];
      [|reflexivity].
    destruct (if filter (getBlockById h w (id d))
              then block <- textToDom text ;; Ok [block] else Ok []); cbn [bind];
      [|reflexivity].
    destruct (getCategoryXML Element textToDom h l2 typeName filter); reflexivity. }
  split; [|exact Heq].
  intros out H. rewrite Heq in H.
  apply bind_Ok_inv in H. destruct H as (o1 & H1 & H).
  apply bind_Ok_inv in H. destruct H as (e & He & H).
  apply bind_Ok_inv in H. destruct H as (o2 & H2 & H).
  inversion H; subst. exists o1, o2. split; [exact H1|]. split; [exact H2|].
  destruct (filter (getBlockById h w (id d))).
  - apply bind_Ok_inv in He. destruct He as (x & Hx & He). inversion He; subst.
    exists x. split; [exact Hx | reflexivity].
  - inversion He; subst. reflexivity.
Qed.

Lemma getCategoryXML_block_backed_witness :
  let text :=
    ("<block type=" ++ String "034" "get" ++ String "034" "><field name="
     ++ String "034" "name" ++ String "034" ">" ++ id (block_backed "b1")
     ++ "</field></block>")%string in
  (forall out,
      getCategoryXML string strict_textToDom clash_host
        ([primitive "PI"] ++ block_backed "b1" :: [block_backed "gone"])
        "get" default_filter = Ok out ->
      exists o1 o2,
        getCategoryXML string strict_textToDom clash_host
          [primitive "PI"] "get" default_filter = Ok o1 /\
        getCategoryXML string strict_textToDom clash_host
          [block_backed "gone"] "get" default_filter = Ok o2 /\
        if default_filter (getBlockById clash_host O (id (block_backed "b1")))
        then exists e, strict_textToDom text = Ok e /\ out = o1 ++ e :: o2
        else out = o1 ++ o2) /\
  getCategoryXML string strict_textToDom clash_host
    ([primitive "PI"] ++ block_backed "b1" :: [block_backed "gone"])
    "get" default_filter =
  (o1 <- getCategoryXML string strict_textToDom clash_host
           [primitive "PI"] "get" default_filter ;;
   e <- (if default_filter (getBlockById clash_host O (id (block_backed "b1")))
         then block <- strict_textToDom text ;; Ok [block]
         else Ok []) ;;
   o2 <- getCategoryXML string strict_textToDom clash_host
           [block_backed "gone"] "get" default_filter ;;
   Ok (o1 ++ e ++ o2)).
Proof.
  apply (getCategoryXML_block_backed string strict_textToDom clash_host
           [primitive "PI"] [block_backed "gone"] (block_backed "b1") O
           "get" default_filter); reflexivity.
Defined.

(** With the default filter the entry of a block that no longer exists is
    left out; an id that is not XML text makes the call raise once the
    filter accepts its block, and not before. *)
Example category_skips_missing_block :
  getCategoryXML string strict_textToDom clash_host
    [primitive "PI"; block_backed "gone"; block_backed "b2"] "get" default_filter
  = Ok [blockText "get" "PI"; blockText "get" "b2"].
Proof. reflexivity. Qed.

Example category_unescaped_id :
  getCategoryXML string strict_textToDom Builder.markup_host
    [block_backed "a<b"] "get" (fun _ => false) = Ok [] /\
  getCategoryXML string strict_textToDom Builder.markup_host
    [block_backed "a<b"] "get" default_filter = TypeError.
Proof. split; reflexivity. Qed.

(** X13. [getCategoryXML] raises as soon as the registry holds one entry, not a
    primitive with a name, whose [wid] names no workspace: nothing is
    rendered, whatever the other entries and the filter are. *)
Theorem getCategoryXML_raises_on_unknown_workspace
    (Element : Type) (textToDom : string -> outcome Element) (h : Host)
    (this_list : list Declaration) (d : Declaration)
    (typeName : string) (filter : option Block -> bool) :
  In d this_list ->
  Builder.isPrimitive d = false ->
  Workspace_getById h (wid d) = None ->
  getCategoryXML Element textToDom h this_list typeName filter = TypeError.
Proof.
  intros Hin Hp Hw. apply in_split in Hin. destruct Hin as (l1 & l2 & ->).
  rewrite getCategoryXML_app, getCategoryXML_cons, getCategoryXML_single.
  rewrite Hp, Hw. cbn [deref bind].
  destruct (getCategoryXML Element textToDom h l1 typeName filter); reflexivity.
Qed.

Lemma getCategoryXML_raises_on_unknown_workspace_witness :
  getCategoryXML string lenient_textToDom clash_host
    [primitive "PI"; {| id := "b1"; wid := "closed"; name := None |}]
    "get" (fun _ => false) = TypeError.
Proof.
  apply (getCategoryXML_raises_on_unknown_workspace string lenient_textToDom
           clash_host _ {| id := "b1"; wid := "closed"; name := None |}).
  - right; left; reflexivity.
  - reflexivity.
  - reflexivity.
Defined.



(** * Properties of the builder's callbacks *)

(** ** [categoryCallback_] *)

Lemma strict_eq_Some (a : option string) (s : string) :
  strict_eq a (Some s) = true -> a = Some s.
Proof.
  destruct a as [x|]; simpl; [|discriminate].
  intros H. apply String.eqb_eq in H. congruence.
Qed.

Lemma accepts_setter_default (h : Host) (d : Declaration) :
  Builder.accepts h (Builder.setterFilter h) d = true ->
  Builder.accepts h default_filter d = true.
Proof.
  unfold Builder.accepts. destruct (Builder.isPrimitive d); [reflexivity|]. simpl.
  destruct (Workspace_getById h (wid d)) as [w|]; [|discriminate].
  destruct (getBlockById h w (id d)); [reflexivity | discriminate].
Qed.

(** X15. When [categoryCallback_] returns, its result is the builder's
    default elements, unchanged and first, then the getter templates, which
    are the output of [getCategoryXML] for the getter type and the default
    filter (none when the getter block type is not defined), then the setter
    templates, which are the output of [getCategoryXML] for the setter type
    and the read-only filter (none when the getter type is not defined or the
    family is always read-only).  There are never more setter templates than
    getter templates, nor more getter templates than registry entries. *)
Theorem categoryCallback_shape
    (Element : Type) (textToDom : string -> outcome Element) (h : Host)
    (cfg : Builder.Config) (Blocks : string -> bool)
    (xmlList0 : list Element) (this_list : list Declaration) (out : list Element) :
  Builder.categoryCallback_ Element textToDom h cfg Blocks xmlList0 this_list = Ok out ->
  exists getters setters,
    out = xmlList0 ++ getters ++ setters /\
    (if Blocks (Builder.TYPE_NAME_GETTER_ cfg)
     then getCategoryXML Element textToDom h this_list
            (Builder.TYPE_NAME_GETTER_ cfg) default_filter = Ok getters
     else getters = []) /\
    (if Blocks (Builder.TYPE_NAME_GETTER_ cfg) && negb (Builder.isAlwaysReadonly cfg)
     then getCategoryXML Element textToDom h this_list
            (Builder.TYPE_NAME_SETTER_ cfg) (Builder.setterFilter h) = Ok setters
     else setters = []) /\
    (List.length setters <= List.length getters <= List.length this_list)%nat.
Proof.
  unfold Builder.categoryCallback_. intros H.
  destruct (Blocks (Builder.TYPE_NAME_GETTER_ cfg)).
  2:{ inversion H; subst. exists [], []. rewrite !app_nil_r. simpl.
      repeat split; lia. }
  apply bind_Ok_inv in H. destruct H as (getters & Hg & H).
  pose proof (getCategoryXML_length _ _ _ _ _ _ _ Hg) as Hlg.
  destruct (Builder.isAlwaysReadonly cfg); cbn [negb andb] in *.
  { inversion H; subst. exists getters, []. rewrite app_nil_r. simpl.
    repeat split; [exact Hg | lia | exact Hlg]. }
  apply bind_Ok_inv in H. destruct H as (setters & Hs & H). inversion H; subst.
  exists getters, setters. split; [rewrite app_assoc; reflexivity|].
  split; [exact Hg|]. split; [exact Hs|]. split; [|exact Hlg].
  rewrite (getCategoryXML_count _ _ _ _ _ _ _ Hs), (getCategoryXML_count _ _ _ _ _ _ _ Hg).
  apply filter_length_mono. apply accepts_setter_default.
Qed.

Lemma categoryCallback_shape_witness :
  exists getters setters,
    ["declare"%string; blockText "Get" "PI"; blockText "Get" "b1"; blockText "Get" "b2";
     blockText "Set" "PI"; blockText "Set" "b2"]
    = ["declare"%string] ++ getters ++ setters /\
    getCategoryXML string strict_textToDom Builder.readonly_host
      [primitive "PI"; block_backed "b1"; block_backed "b2"] "Get" default_filter
    = Ok getters /\
    getCategoryXML string strict_textToDom Builder.readonly_host
      [primitive "PI"; block_backed "b1"; block_backed "b2"] "Set"
      (Builder.setterFilter Builder.readonly_host)
    = Ok setters /\
    (List.length setters <= List.length getters
     <= List.length [primitive "PI"; block_backed "b1"; block_backed "b2"])%nat.
Proof.
  apply (categoryCallback_shape string strict_textToDom Builder.readonly_host
           (Builder.mkConfig "Get" "Set" false) (fun _ => true)
           ["declare"%string] [primitive "PI"; block_backed "b1"; block_backed "b2"]).
  reflexivity.
Defined.

(** X16. When no block carries [readonly = 'FALSE'] (a family without the
    checkbox, say), the setter filter renders the primitives and nothing
    else: the same output as a filter that rejects every block. *)
Theorem setter_templates_need_readonly_FALSE
    (Element : Type) (textToDom : string -> outcome Element) (h : Host)
    (this_list : list Declaration) (typeName : string) :
  (forall b, getFieldValue h b "readonly" <> Some "FALSE"%string) ->
  getCategoryXML Element textToDom h this_list typeName (Builder.setterFilter h)
  = getCategoryXML Element textToDom h this_list typeName (fun _ => false).
Proof.
  intros Hro. apply getCategoryXML_filter_ext. intros d w _ _.
  unfold Builder.setterFilter. destruct (getBlockById h w (id d)) as [b|]; [|reflexivity].
  destruct (strict_eq (getFieldValue h b "readonly") (Some "FALSE"%string)) eqn:E;
    [|reflexivity].
  apply strict_eq_Some in E. exfalso. exact (Hro b E).
Qed.

Lemma setter_templates_need_readonly_FALSE_witness :
  getCategoryXML string lenient_textToDom clash_host
    [block_backed "b1"; primitive "PI"; block_backed "b2"] "Set"
    (Builder.setterFilter clash_host)
  = getCategoryXML string lenient_textToDom clash_host
      [block_backed "b1"; primitive "PI"; block_backed "b2"] "Set" (fun _ => false).
Proof.
  apply (setter_templates_need_readonly_FALSE string lenient_textToDom clash_host).
  intros b. unfold clash_host. simpl. discriminate.
Defined.

(** ** The option generator of [stackDropdownMenuImpl_] *)

Section MenuFacts.

Variable h : Host.
Variable getOutputShape : Block -> option Z.
Variable cfg : Builder.Config.
Variable isSetter : bool.

Local Abbreviation pushOption := (Builder.pushOption h cfg isSetter).
Local Abbreviation forEachOption := (Builder.forEachOption h cfg isSetter).

Local Abbreviation offered := (Builder.offered h cfg isSetter).

Lemma pushOption_single (options : list Builder.MenuOption) (d : Declaration) :
  pushOption options d =
  if Builder.isPrimitive d then
    let n := match name d with Some n => n | None => EmptyString end in
    Ok (options ++ [(Some n, n)])
  else
    w <- deref (Workspace_getById h (wid d)) ;;
    Ok (options ++ offered w d).
Proof.
  unfold Builder.pushOption, Builder.isPrimitive, Builder.offered, Builder.setterFilter.
  destruct (String.eqb (id d) EmptyString && truthy_string (name d)); [reflexivity|].
  destruct (Workspace_getById h (wid d)) as [w|]; simpl; [|reflexivity].
  destruct (getBlockById h w (id d)) as [block_|]; [|rewrite app_nil_r; reflexivity].
  destruct (Builder.isAlwaysReadonly cfg || negb isSetter
            || negb (strict_eq (getFieldValue h block_ "readonly") (Some "FALSE"%string)));
    [reflexivity | rewrite app_nil_r; reflexivity].
Qed.

Lemma pushOption_acc (options : list Builder.MenuOption) (d : Declaration) :
  pushOption options d = (o <- pushOption [] d ;; Ok (options ++ o)).
Proof.
  rewrite (pushOption_single options d), (pushOption_single [] d).
  destruct (Builder.isPrimitive d); [reflexivity|].
  destruct (Workspace_getById h (wid d)) as [w|]; reflexivity.
Qed.

Lemma forEachOption_acc (stack : list Declaration) (options : list Builder.MenuOption) :
  forEachOption stack options = (o <- forEachOption stack [] ;; Ok (options ++ o)).
Proof.
  revert options. induction stack as [|d stack IH]; intros options; simpl.
  - rewrite app_nil_r. reflexivity.
  - rewrite pushOption_acc. destruct (pushOption [] d) as [o|]; simpl; [|reflexivity].
    rewrite IH. rewrite (IH o).
    destruct (forEachOption stack []) as [o'|]; simpl; [|reflexivity].
    rewrite app_assoc. reflexivity.
Qed.

Lemma forEachOption_app (s1 s2 : list Declaration) :
  forEachOption (s1 ++ s2) [] =
  (o1 <- forEachOption s1 [] ;; o2 <- forEachOption s2 [] ;; Ok (o1 ++ o2)).
Proof.
  assert (H : forall options,
             forEachOption (s1 ++ s2) options =
             (o <- forEachOption s1 options ;; forEachOption s2 o)).
  { induction s1 as [|d s1 IH]; intros options; simpl; [reflexivity|].
    destruct (pushOption options d) as [o|]; simpl; [apply IH | reflexivity]. }
  rewrite H. destruct (forEachOption s1 []) as [o1|]; simpl; [|reflexivity].
  apply forEachOption_acc.
Qed.

(** Where an option of the menu comes from. *)
Lemma forEachOption_In (stack : list Declaration) (options : list Builder.MenuOption)
    (o : Builder.MenuOption) :
  forEachOption stack [] = Ok options ->
  In o options ->
  exists d, In d stack /\
    ((Builder.isPrimitive d = true /\ exists n, name d = Some n /\ o = (Some n, n)) \/
     (Builder.isPrimitive d = false /\
      exists w, Workspace_getById h (wid d) = Some w /\ In o (offered w d))).
Proof.
  revert options. induction stack as [|d stack IH]; intros options H Ho.
  - inversion H; subst. destruct Ho.
  - change (d :: stack) with ([d] ++ stack) in H. rewrite forEachOption_app in H.
    apply bind_Ok_inv in H. destruct H as (o1 & H1 & H).
    apply bind_Ok_inv in H. destruct H as (o2 & H2 & H).
    inversion H; subst. apply in_app_or in Ho. destruct Ho as [Ho|Ho].
    + exists d. split; [left; reflexivity|].
      simpl in H1. rewrite pushOption_single in H1.
      destruct (Builder.isPrimitive d) eqn:Ep.
      * left. split; [reflexivity|]. inversion H1; subst.
        destruct Ho as [<-|[]].
        unfold Builder.isPrimitive in Ep. apply andb_true_iff in Ep.
        destruct Ep as [_ Ep]. destruct (name d) as [n|]; [|discriminate].
        exists n. split; reflexivity.
      * right. split; [reflexivity|].
        destruct (Workspace_getById h (wid d)) as [w|]; [|discriminate].
        inversion H1; subst. exists w. split; [reflexivity | exact Ho].
    + destruct (IH _ H2 Ho) as (d' & Hd' & Hc). exists d'. split; [right; exact Hd' | exact Hc].
Qed.

End MenuFacts.

(** X17. The menu of a block without a parent walks the whole registry.  In it
    an entry that is not a primitive with a name is offered, at its place in
    registry order, when its block exists and the family is always read-only,
    or the querying block has no output shape, or the [readonly] field of the
    declaration is not ['FALSE'], that is, when the setter filter of the
    category rejects the declaration. *)
Theorem menu_of_top_level_block
    (h : Host) (getOutputShape : Block -> option Z) (cfg : Builder.Config)
    (l1 l2 : list Declaration) (d : Declaration) (w : Workspace) (block : Block) :
  getParent h block = None ->
  Builder.isPrimitive d = false ->
  Workspace_getById h (wid d) = Some w ->
  Builder.stackDropdownMenuImpl_ h getOutputShape cfg (l1 ++ d :: l2) block =
  (o1 <- Builder.stackDropdownMenuImpl_ h getOutputShape cfg l1 block ;;
   o2 <- Builder.stackDropdownMenuImpl_ h getOutputShape cfg l2 block ;;
   Ok (o1 ++
       match getBlockById h w (id d) with
       | Some block_ =>
           if Builder.isAlwaysReadonly cfg
              || negb (truthy (getOutputShape block))
              || negb (Builder.setterFilter h (Some block_))
           then [(getFieldValue h block_ "name", id d)]
           else []
       | None => []
       end ++ o2)).
Proof.
  intros Hp Hprim Hw. unfold Builder.stackDropdownMenuImpl_, getAccessibleDeclarations.
  rewrite Hp. cbn [bind].
  rewrite forEachOption_app. change (d :: l2) with ([d] ++ l2).
  rewrite forEachOption_app.
  assert (Hd : Builder.forEachOption h cfg (truthy (getOutputShape block)) [d] []
               = Ok (Builder.offered h cfg (truthy (getOutputShape block)) w d)).
  { simpl. rewrite pushOption_single, Hprim, Hw. reflexivity. }
  rewrite Hd. cbn [bind]. unfold Builder.offered.
  destruct (Builder.forEachOption h cfg (truthy (getOutputShape block)) l1 []);
    cbn [bind]; [|reflexivity].
  destruct (Builder.forEachOption h cfg (truthy (getOutputShape block)) l2 []);
    reflexivity.
Qed.

Lemma menu_of_top_level_block_witness :
  Builder.stackDropdownMenuImpl_ Builder.readonly_host (fun _ => Some 1)
    (Builder.mkConfig "Get" "Set" false)
    ([primitive "PI"; block_backed "b1"] ++ block_backed "b2" :: []) 1%nat =
  (o1 <- Builder.stackDropdownMenuImpl_ Builder.readonly_host (fun _ => Some 1)
           (Builder.mkConfig "Get" "Set" false)
           [primitive "PI"; block_backed "b1"] 1%nat ;;
   o2 <- Builder.stackDropdownMenuImpl_ Builder.readonly_host (fun _ => Some 1)
           (Builder.mkConfig "Get" "Set" false) [] 1%nat ;;
   Ok (o1 ++
       match getBlockById Builder.readonly_host O (id (block_backed "b2")) with
       | Some block_ =>
           if Builder.isAlwaysReadonly (Builder.mkConfig "Get" "Set" false)
              || negb (truthy (Some 1))
              || negb (Builder.setterFilter Builder.readonly_host (Some block_))
           then [(getFieldValue Builder.readonly_host block_ "name",
                  id (block_backed "b2"))]
           else []
       | None => []
       end ++ o2)).
Proof.
  apply (menu_of_top_level_block Builder.readonly_host (fun _ => Some 1)
           (Builder.mkConfig "Get" "Set" false)
           [primitive "PI"; block_backed "b1"] [] (block_backed "b2") O 1%nat);
    reflexivity.
Defined.

(** The menu of the witness, evaluated: for a block with an output shape
    the declaration that is not read-only ([b2]) is the one left out. *)
Example menu_with_output_shape :
  Builder.stackDropdownMenuImpl_ Builder.readonly_host (fun _ => Some 1)
    (Builder.mkConfig "Get" "Set" false)
    [primitive "PI"; block_backed "b1"; block_backed "b2"] 1%nat
  = Ok [(Some "PI", "PI"); (Some "x", "b1")]%string.
Proof. reflexivity. Qed.

(** X18. The menu of a nested block (within the bound) offers block-backed
    options only: the value of every option is the id of a registered block
    that stands in the sibling list of some level of the walk, and its label
    is the [name] field of the block that id resolves to in the workspace
    named by that sibling's workspace id.  No primitive of the registry is
    offered. *)
Theorem menu_of_nested_block
    (h : Host) (getOutputShape : Block -> option Z) (cfg : Builder.Config)
    (this_list : list Declaration) (block : Block)
    (options : list Builder.MenuOption) :
  getParent h block <> None ->
  ancestor h max_iter block = None ->
  Builder.stackDropdownMenuImpl_ h getOutputShape cfg this_list block = Ok options ->
  forall label value, In (label, value) options ->
    exists k c blocks s ws w block_,
      ancestor h k block = Some c /\
      siblings h c (getParent h c) = Ok blocks /\
      In s blocks /\
      registered h this_list s = true /\
      value = block_id h s /\
      workspace h s = Some ws /\
      Workspace_getById h (workspace_id h ws) = Some w /\
      getBlockById h w value = Some block_ /\
      label = getFieldValue h block_ "name".
Proof.
  intros Hp Ha H label value Ho. unfold Builder.stackDropdownMenuImpl_ in H.
  apply bind_Ok_inv in H. destruct H as (stack & Hstack & H).
  destruct (forEachOption_In h cfg _ stack options (label, value) H Ho)
    as (d & Hd & Hcase).
  destruct (getParent h block) as [p|] eqn:Ep; [clear Hp | congruence].
  destruct (nested_walk_breaks h this_list block p stack Ep Ha Hstack) as (i & Hw & _).
  destruct (walk_In h this_list _ _ _ _ _ _ d Hw Hd)
    as [[]|(k & c & vars & Hk & Hv & Hin)].
  unfold scopeLevel in Hv. apply bind_Ok_inv in Hv. destruct Hv as (blocks & Hsib & Hv).
  destruct (scopeVars_In h this_list blocks c vars Hv d Hin)
    as (s & ws & Hsin & Hreg & Hws & ->).
  destruct Hcase as [(Hprim & _)|(_ & w & Hw' & Hoff)].
  - unfold Builder.isPrimitive in Hprim. simpl in Hprim.
    rewrite andb_false_r in Hprim. discriminate.
  - cbn [wid id] in Hw', Hoff. unfold Builder.offered in Hoff. cbn [id] in Hoff.
    destruct (getBlockById h w (block_id h s)) as [block_|] eqn:Eb;
      [|simpl in Hoff; contradiction].
    destruct (Builder.isAlwaysReadonly cfg || negb (truthy (getOutputShape block))
              || negb (Builder.setterFilter h (Some block_)));
      [|simpl in Hoff; contradiction].
    destruct Hoff as [Heq|[]]. inversion Heq; subst.
    exists k, c, blocks, s, ws, w, block_. repeat split; assumption.
Qed.

Lemma menu_of_nested_block_witness :
  exists k c blocks s ws w block_,
    ancestor Builder.menu_host k 4%nat = Some c /\
    siblings Builder.menu_host c (getParent Builder.menu_host c) = Ok blocks /\
    In s blocks /\
    registered Builder.menu_host family_list s = true /\
    "B"%string = block_id Builder.menu_host s /\
    workspace Builder.menu_host s = Some ws /\
    Workspace_getById Builder.menu_host (workspace_id Builder.menu_host ws) = Some w /\
    getBlockById Builder.menu_host w "B" = Some block_ /\
    Some "b"%string = getFieldValue Builder.menu_host block_ "name".
Proof.
  apply (menu_of_nested_block Builder.menu_host (fun _ => None)
           (Builder.mkConfig "Get" "Set" false) family_list 4%nat
           [(Some "a", "A"); (Some "b", "B"); (Some "d", "D")]%string).
  - discriminate.
  - reflexivity.
  - reflexivity.
  - right; left; reflexivity.
Defined.

(** The same registry seen from the parentless block [P]: the primitive is
    offered there, under its name. *)
Example menu_of_parentless_block :
  Builder.stackDropdownMenuImpl_ Builder.menu_host (fun _ => None)
    (Builder.mkConfig "Get" "Set" false) family_list 0%nat
  = Ok [(Some "PI", "PI"); (Some "a", "A"); (Some "b", "B"); (Some "d", "D")]%string.
Proof. reflexivity. Qed.
